(** * The site-index builder, [scripts/generate-site-index.py]

    A shallow embedding of the script and the properties of its front-matter
    extractor, configuration reader, URL deriver and assembly loop.

    Python values are modelled as follows.
    - A [str] is a list of Unicode code points ([N]).
    - An exception is a constructor of [exn]; a computation that may raise
      returns a [result].
    - The file system is explicit.  The configuration file is a
      [config_state]: missing, read to its end, or read up to the point
      where opening, reading or decoding it fails.  The content tree is the
      list of every path below the content root (relative, as its components)
      with what is stored there, in the order the operating system enumerates
      it; a path holds a text, a directory, or something whose reading raises.
      File texts are the texts [open] and [read_text] hand to the program
      (decoded, newlines translated).  Creating the directory of the index or
      opening the index for writing may raise; writing the text, once the
      file is open, is taken to succeed.
    - The parts of the Unicode character database that [str.title] consults
      for code points above 127 are a parameter ([UnicodeData]). *)

From Stdlib Require Import String Ascii NArith Bool Arith Lia List.
From Stdlib Require Import Sorting.Sorted Sorting.Permutation.
Import ListNotations.

Set Implicit Arguments.

(** ** Python strings *)

Definition char := N.
Definition str := list char.

Definition ord (a : ascii) : char := N_of_ascii a.

(** [py "abc"] is the Python literal ["abc"]. *)
Definition py (s : string) : str := map ord (list_ascii_of_string s).

Definition chr_eqb (a b : char) : bool := N.eqb a b.

Fixpoint str_eqb (a b : str) : bool :=
  match a, b with
  | [], [] => true
  | x :: a', y :: b' => chr_eqb x y && str_eqb a' b'
  | _, _ => false
  end.

(** [s.startswith(p)] *)
Fixpoint startswith (s p : str) {struct p} : bool :=
  match p with
  | [] => true
  | a :: p' =>
      match s with
      | [] => false
      | b :: s' => chr_eqb a b && startswith s' p'
      end
  end.

(** [s.find(sub)] for a non-empty [sub]: the least index where [sub] occurs. *)
Fixpoint find (s sub : str) {struct s} : option nat :=
  if startswith s sub then Some 0
  else match s with
       | [] => None
       | _ :: s' => option_map S (find s' sub)
       end.

(** [s[lo:hi]] for [0 <= lo], [0 <= hi]. *)
Definition slice (s : str) (lo hi : nat) : str := firstn (hi - lo) (skipn lo s).

(** [s.split(sep)] for a one-character separator. *)
Fixpoint split (sep : char) (s : str) : list str :=
  match s with
  | [] => [[]]
  | c :: s' =>
      if chr_eqb c sep then [] :: split sep s'
      else match split sep s' with
           | w :: ws => (c :: w) :: ws
           | [] => [[c]]
           end
  end.

(** [sep.join(l)] *)
Fixpoint join (sep : str) (l : list str) : str :=
  match l with
  | [] => []
  | x :: l' =>
      match l' with
      | [] => x
      | _ :: _ => x ++ sep ++ join sep l'
      end
  end.

(** [s.replace(old, new)] for a non-empty [old]: one pass from the left over
    non-overlapping occurrences.  [skip] counts the characters of a matched
    occurrence that are still to be dropped. *)
Fixpoint replace_from (old new : str) (skip : nat) (s : str) : str :=
  match s with
  | [] => []
  | c :: s' =>
      match skip with
      | S k => replace_from old new k s'
      | O =>
          if startswith s old
          then new ++ replace_from old new (length old - 1) s'
          else c :: replace_from old new 0 s'
      end
  end.

Definition replace (old new s : str) : str := replace_from old new 0 s.

(** [str.isspace] on one character, which is also the class [\s] of [re] on
    [str] patterns. *)
Definition isspace (c : char) : bool :=
  ((9 <=? c) && (c <=? 13) || (28 <=? c) && (c <=? 32)
   || (c =? 133) || (c =? 160) || (c =? 5760)
   || (8192 <=? c) && (c <=? 8202)
   || (c =? 8232) || (c =? 8233) || (c =? 8239) || (c =? 8287)
   || (c =? 12288))%N.

Fixpoint dropwhile (f : char -> bool) (s : str) : str :=
  match s with
  | [] => []
  | c :: s' => if f c then dropwhile f s' else s
  end.

Definition lstrip (s : str) : str := dropwhile isspace s.
Definition rstrip (s : str) : str := rev (dropwhile isspace (rev s)).

(** [s.strip()] *)
Definition strip (s : str) : str := rstrip (lstrip s).

(** [s.rstrip(chars)] *)
Definition rstrip_chars (chars s : str) : str :=
  rev (dropwhile (fun c => existsb (chr_eqb c) chars) (rev s)).

(** [for line in f]: the lines of a text file, each with its newline. *)
Fixpoint readlines (s : str) : list str :=
  match s with
  | [] => []
  | c :: s' =>
      if chr_eqb c 10%N then [c] :: readlines s'
      else match readlines s' with
           | l :: ls => (c :: l) :: ls
           | [] => [[c]]
           end
  end.

(** ** Exceptions *)

Inductive exn : Type :=
| FileNotFoundError
| IsADirectoryError
| PermissionError
| UnicodeDecodeError
| ValueError
| IndexError.

Inductive result (A : Type) : Type :=
| Ok (a : A)
| Raise (e : exn).

Arguments Ok {A} a.
Arguments Raise {A} e.

Definition bind {A B : Type} (c : result A) (k : A -> result B) : result B :=
  match c with
  | Ok a => k a
  | Raise e => Raise e
  end.

Notation "x <- c ;; k" := (bind c (fun x => k))
  (at level 61, c at next level, right associativity).
Notation "' p <- c ;; k" := (bind c (fun x => let 'p := x in k))
  (at level 61, p pattern, c at next level, right associativity).

(** [s.index(sub, start)] *)
Definition index (s sub : str) (start : nat) : result nat :=
  match find (skipn start s) sub with
  | Some i => Ok (start + i)
  | None => Raise ValueError
  end.

(** ** The regular expressions

    Both patterns of the script have the shape [key\s*=\s*Q([^Q]+)Q], where
    [Q] is the class of the two quote characters (code points 34 and 39) and
    [^Q] its complement.  The matcher is a backtracking one in
    continuation-passing style: a greedy repetition first tries to consume
    one more character and falls back to its continuation. *)

Section Regex.
Variable R : Type.

Definition re_lit (p : str) (k : str -> option R) (s : str) : option R :=
  if startswith s p then k (skipn (length p) s) else None.

Definition re_set (f : char -> bool) (k : str -> option R) (s : str)
  : option R :=
  match s with
  | c :: s' => if f c then k s' else None
  | [] => None
  end.

Fixpoint re_star (f : char -> bool) (k : str -> option R) (s : str)
  : option R :=
  match s with
  | c :: s' =>
      if f c
      then match re_star f k s' with
           | Some r => Some r
           | None => k s
           end
      else k s
  | [] => k s
  end.

(** A greedy repetition inside a capturing group; [acc] is the text the
    group has consumed so far. *)
Fixpoint re_star_group (f : char -> bool) (acc : str)
    (k : str -> str -> option R) (s : str) : option R :=
  match s with
  | c :: s' =>
      if f c
      then match re_star_group f (acc ++ [c]) k s' with
           | Some r => Some r
           | None => k acc s
           end
      else k acc s
  | [] => k acc s
  end.

Definition re_plus_group (f : char -> bool) (k : str -> str -> option R)
    (s : str) : option R :=
  match s with
  | c :: s' => if f c then re_star_group f [c] k s' else None
  | [] => None
  end.
End Regex.

Definition isquote (c : char) : bool := (c =? 34)%N || (c =? 39)%N.

(** [re.match(pattern, s)] for the pattern with key [key], giving
    [m.group(1)]. *)
Definition re_match (key : str) (s : str) : option str :=
  re_lit key
    (re_star isspace
      (re_set (chr_eqb 61%N)
        (re_star isspace
          (re_set isquote
            (re_plus_group (fun c => negb (isquote c))
              (fun g => re_set isquote (fun _ => Some g))))))) s.

(** [re.search(...)]: the match at the leftmost position that has one. *)
Fixpoint re_search (key : str) (s : str) : option str :=
  match re_match key s with
  | Some g => Some g
  | None =>
      match s with
      | [] => None
      | _ :: s' => re_search key s'
      end
  end.

(** ** Title case

    [str.title] maps a character to title case when the character before it
    is not cased and to lower case when it is.  Below code point 128 the
    mappings are those of the ASCII letters; above, they are read from the
    Unicode tables (the lower-case mapping sees the whole string and the
    position, as the rule for a final sigma needs them). *)

Record UnicodeData : Type := {
  ucd_totitle : char -> str;
  ucd_tolower : str -> nat -> char -> str;
  ucd_iscased : char -> bool
}.

Definition isupper_ascii (c : char) : bool := ((65 <=? c) && (c <=? 90))%N.
Definition islower_ascii (c : char) : bool := ((97 <=? c) && (c <=? 122))%N.

Section Title.
Variable ucd : UnicodeData.

Definition totitle (c : char) : str :=
  if (c <? 128)%N
  then [if islower_ascii c then (c - 32)%N else c]
  else ucd_totitle ucd c.

Definition tolower (whole : str) (i : nat) (c : char) : str :=
  if (c <? 128)%N
  then [if isupper_ascii c then (c + 32)%N else c]
  else ucd_tolower ucd whole i c.

Definition iscased (c : char) : bool :=
  if (c <? 128)%N
  then isupper_ascii c || islower_ascii c
  else ucd_iscased ucd c.

Fixpoint title_from (whole : str) (i : nat) (previous_is_cased : bool)
    (s : str) : str :=
  match s with
  | [] => []
  | c :: s' =>
      (if previous_is_cased then tolower whole i c else totitle c)
        ++ title_from whole (S i) (iscased c) s'
  end.

(** [s.title()] *)
Definition title (s : str) : str := title_from s 0 false s.
End Title.

(** ** Paths

    A path relative to the content root is the list of its components
    ([rel.parts]). *)

Definition path := list str.

(** [p.name] *)
Definition name (p : path) : str := last p [].

(** [s.rfind(c)] for a character [c] *)
Fixpoint rfind (c : char) (s : str) : option nat :=
  match s with
  | [] => None
  | x :: s' =>
      match rfind c s' with
      | Some i => Some (S i)
      | None => if chr_eqb x c then Some 0 else None
      end
  end.

(** [p.stem]: the name up to its last dot, when that dot is neither the
    first nor the last character. *)
Definition stem (p : path) : str :=
  let n := name p in
  match rfind 46%N n with
  | Some i => if (0 <? i) && (i <? length n - 1) then firstn i n else n
  | None => n
  end.

(** [str(p)] on a POSIX system *)
Definition path_str (p : path) : str :=
  match p with
  | [] => py "."
  | _ :: _ => join (py "/") p
  end.

(** What a path of the content tree holds: a regular file that decodes to
    [text], a directory, or something whose reading raises [e] (bytes that
    are not UTF-8 raise [UnicodeDecodeError], a link to nothing raises
    [FileNotFoundError], a file one may not read raises [PermissionError]). *)
Inductive node : Type :=
| File (text : str)
| Directory
| Unreadable (e : exn).

(** [p.read_text(encoding="utf-8")] where [n] is what is stored at [p]. *)
Definition read_text (n : node) : result str :=
  match n with
  | File text => Ok text
  | Directory => Raise IsADirectoryError
  | Unreadable e => Raise e
  end.

Definition endswith (s p : str) : bool := startswith (rev s) (rev p).

(** ** The order of [Path] objects: component by component, each component
    by code point. *)

Section Lexicographic.
Variable A : Type.
Variable cmp : A -> A -> comparison.

Fixpoint lex_compare (a b : list A) : comparison :=
  match a, b with
  | [], [] => Eq
  | [], _ :: _ => Lt
  | _ :: _, [] => Gt
  | x :: a', y :: b' =>
      match cmp x y with
      | Eq => lex_compare a' b'
      | c => c
      end
  end.
End Lexicographic.

Definition str_compare : str -> str -> comparison := lex_compare N.compare.
Definition path_compare : path -> path -> comparison := lex_compare str_compare.

(** [a < b] on paths *)
Definition path_lt (a b : path) : bool :=
  match path_compare a b with
  | Lt => true
  | _ => false
  end.

(** [sorted(l)]: a stable sort that only asks [<]; an element goes before the
    first one that is not smaller than it. *)
Section Sorted.
Variable T : Type.
Variable lt : T -> T -> bool.

Fixpoint insert (x : T) (l : list T) : list T :=
  match l with
  | [] => [x]
  | y :: l' => if lt y x then y :: insert x l' else x :: l
  end.

Definition sorted (l : list T) : list T := fold_right insert [] l.
End Sorted.

(** [Path] objects found below the content root compare by their relative
    paths: the root is a prefix they share. *)
Definition by_path (a b : path * node) : bool := path_lt (fst a) (fst b).

(** ** The script *)

Definition DEFAULT_BASE_URL : str :=
  py "https://parallax-labs.github.io/context-harness".

(** The state of [site/config.toml] as [open] and the loop over its lines
    meet it: the file is missing; or it opens and decodes to [text], the
    loop running over the lines of [text] to their end; or the loop gets the
    lines [lines] and then an exception [e] is raised, by [open] itself
    (no line: a directory, a file one may not read) or by the decoder when
    it reaches bytes it cannot decode. *)
Inductive config_state : Type :=
| Missing
| Readable (text : str)
| Faulty (lines : list str) (e : exn).

(** The loop of [get_base_url]; [at_end] is what comes after the last line:
    the [return] of the default, or the exception that ends the reading. *)
Fixpoint get_base_url_lines (lines : list str) (at_end : result str)
  : result str :=
  match lines with
  | [] => at_end
  | line :: rest =>
      match re_match (py "base_url") line with
      | Some g1 => Ok (rstrip_chars (py "/") g1)
      | None => get_base_url_lines rest at_end
      end
  end.

(** [get_base_url()], where [config] is the state of [site/config.toml]. *)
Definition get_base_url (config : config_state) : result str :=
  match config with
  | Missing => Raise FileNotFoundError
  | Readable text => get_base_url_lines (readlines text) (Ok DEFAULT_BASE_URL)
  | Faulty lines e => get_base_url_lines lines (Raise e)
  end.

(** The body of the loop over the lines of the front matter. *)
Definition front_matter_line (acc : str * str) (line : str) : str * str :=
  let (title, description) := acc in
  let title :=
    if startswith (strip line) (py "title")
    then match re_search (py "title") line with
         | Some g1 => g1
         | None => title
         end
    else title in
  let description :=
    if startswith (strip line) (py "description")
    then match re_search (py "description") line with
         | Some g1 => g1
         | None => description
         end
    else description in
  (title, description).

(** [rel_path.replace("\\", "/").split("/")] and the rest of [path_to_url]. *)
Definition path_to_url (rel_path base_url : str) : str :=
  let parts := split 47%N (replace [92%N] (py "/") rel_path) in
  if str_eqb (last parts []) (py "_index.md")
  then base_url ++ py "/" ++ join (py "/") (removelast parts) ++ py "/"
  else
    let stem := replace (py ".md") [] (last parts []) in
    base_url ++ py "/" ++ join (py "/") (removelast parts ++ [stem]) ++ py "/".

Record entry : Type := {
  entry_title : str;
  entry_url : str;
  entry_description : str
}.

Section Script.
Variable ucd : UnicodeData.

(** [parse_front_matter(path)], where [n] is what [path] holds. *)
Definition parse_front_matter (p : path) (n : node) : result (str * str) :=
  text <- read_text n ;;
  let title :=
    title ucd (replace (py "_") (py " ") (replace (py "-") (py " ") (stem p))) in
  let description := [] in
  if startswith text (py "+++")
  then
    end_ <- index text (py "+++") 3 ;;
    let fm := slice text 3 end_ in
    Ok (fold_left front_matter_line (split 10%N fm) (title, description))
  else Ok (title, description).

(** [CONTENT.rglob("*.md")] over the enumerated tree. *)
Definition rglob_md (tree : list (path * node)) : list (path * node) :=
  filter (fun f => endswith (name (fst f)) (py ".md")) tree.

Definition skipped (rel : path) : result bool :=
  match rel with
  | [] => Raise IndexError
  | part0 :: _ => Ok (startswith part0 (py "_"))
  end.

(** One turn of the loop of [main]: the entries it appends. *)
Definition visit (base_url : str) (f : path * node) : result (list entry) :=
  let (rel, n) := f in
  skip <- skipped rel ;;
  if skip then Ok []
  else
    ' (title, description) <- parse_front_matter rel n ;;
    let url := path_to_url (path_str rel) base_url in
    Ok [ {| entry_title := title;
            entry_url := url;
            entry_description :=
              match description with [] => [] | _ :: _ => description end |} ].

Fixpoint visit_all (base_url : str) (files : list (path * node))
  : result (list entry) :=
  match files with
  | [] => Ok []
  | f :: rest =>
      es <- visit base_url f ;;
      more <- visit_all base_url rest ;;
      Ok (es ++ more)
  end.

Definition static_entries (base_url : str) : list entry :=
  [ {| entry_title := py "Context Harness";
       entry_url := base_url ++ py "/";
       entry_description := py "Local-first context engine for AI tools" |};
    {| entry_title := py "Demo";
       entry_url := base_url ++ py "/demo/";
       entry_description :=
         py "Search a pre-built knowledge base in your browser" |} ].

(** The list [entries] that [main] has built when it reaches the write. *)
Definition build_entries (config : config_state) (tree : list (path * node))
  : result (list entry) :=
  base_url <- get_base_url config ;;
  found <- visit_all base_url (sorted by_path (rglob_md tree)) ;;
  Ok (static_entries base_url ++ found).
End Script.

(** ** [json.dump(entries, f, indent=2)]

    With the default [ensure_ascii], every character outside the printable
    ASCII range is escaped, so the file holds ASCII only. *)

Definition hex_digit (n : N) : char :=
  if (n <? 10)%N then (48 + n)%N else (87 + n)%N.

Definition hex4 (n : N) : str :=
  [ hex_digit ((n / 4096) mod 16); hex_digit ((n / 256) mod 16);
    hex_digit ((n / 16) mod 16); hex_digit (n mod 16) ]%N.

Definition json_escape (c : char) : str :=
  if (c =? 34)%N then [92; 34]%N
  else if (c =? 92)%N then [92; 92]%N
  else if (c =? 10)%N then [92; 110]%N
  else if (c =? 13)%N then [92; 114]%N
  else if (c =? 9)%N then [92; 116]%N
  else if (c =? 8)%N then [92; 98]%N
  else if (c =? 12)%N then [92; 102]%N
  else if ((32 <=? c) && (c <=? 126))%N then [c]
  else if (c <? 65536)%N then [92; 117]%N ++ hex4 c
  else
    let n := (c - 65536)%N in
    let s1 := N.lor 55296 (N.land (N.shiftr n 10) 1023) in
    let s2 := N.lor 56320 (N.land n 1023) in
    [92; 117]%N ++ hex4 s1 ++ [92; 117]%N ++ hex4 s2.

Definition json_string (s : str) : str :=
  [34%N] ++ flat_map json_escape s ++ [34%N].

Definition json_member (key value : str) : str :=
  py "    " ++ json_string key ++ py ": " ++ json_string value.

Definition json_entry (e : entry) : str :=
  py "{" ++ [10%N]
    ++ json_member (py "title") (entry_title e) ++ py "," ++ [10%N]
    ++ json_member (py "url") (entry_url e) ++ py "," ++ [10%N]
    ++ json_member (py "description") (entry_description e) ++ [10%N]
    ++ py "  }".

Definition json_dumps (es : list entry) : str :=
  match es with
  | [] => py "[]"
  | _ :: _ =>
      py "[" ++ [10%N] ++ py "  "
        ++ join (py "," ++ [10%N] ++ py "  ") (map json_entry es)
        ++ [10%N] ++ py "]"
  end.

(** ** [main]

    The files the script touches: the configuration, the content tree and
    the index it writes ([None] while [site/static/site-index.json] does not
    exist).  [static_fault] is the exception, if there is one, that creating
    the directory [site/static] or opening the index for writing raises
    there: the directory path is taken by a file, the index path by a
    directory, or one may not write.  Once the file is open, writing the
    text is taken to succeed. *)

Record world : Type := {
  config_toml : config_state;
  content : list (path * node);
  static_fault : option exn;
  site_index_json : option str
}.

Section Main.
Variable ucd : UnicodeData.

(** [main()]: the number it prints and the files it leaves.  An exception
    leaves the files as they were: the only write comes last. *)
Definition main (w : world) : result nat * world :=
  match build_entries ucd (config_toml w) (content w) with
  | Ok entries =>
      match static_fault w with
      | Some e => (Raise e, w)
      | None =>
          (Ok (length entries),
           {| config_toml := config_toml w;
              content := content w;
              static_fault := None;
              site_index_json := Some (json_dumps entries) |})
      end
  | Raise e => (Raise e, w)
  end.
End Main.

(** The Unicode tables restricted to ASCII text: characters above 127 are
    taken as uncased and unchanged.  Used to run the script on ASCII
    inputs. *)
Definition ascii_only : UnicodeData :=
  {| ucd_totitle := fun c => [c];
     ucd_tolower := fun _ _ c => [c];
     ucd_iscased := fun _ => false |}.

(** ** Vocabulary of the statements *)

(** A run of whitespace, and a text free of quote characters. *)
Definition blank (ws : str) : Prop := Forall (fun c => isspace c = true) ws.
Definition unquoted (v : str) : Prop :=
  Forall (fun c => negb (isquote c) = true) v.

(** The values the front matter assigns to [key], in the order of its lines:
    one for each line whose stripped text starts with [key] and on which the
    pattern of [key] is found somewhere. *)
Definition field_values (key : str) (lines : list str) : list str :=
  flat_map
    (fun line =>
       if startswith (strip line) key
       then match re_search key line with
            | Some g1 => [g1]
            | None => []
            end
       else [])
    lines.

(** The title derived from the file name: its stem with hyphens and
    underscores turned into spaces, in title case. *)
Definition default_title (ucd : UnicodeData) (p : path) : str :=
  title ucd (replace (py "_") (py " ") (replace (py "-") (py " ") (stem p))).

(** Sample texts: a front matter with both fields, one with two titles and
    one that is never closed. *)
Definition hello_world_text : str :=
  py "+++" ++ [10%N]
    ++ py "title = " ++ [34%N] ++ py "Hello" ++ [34%N] ++ [10%N]
    ++ py "description = " ++ [34%N] ++ py "World" ++ [34%N] ++ [10%N]
    ++ py "+++" ++ [10%N] ++ py "body".

Definition two_titles_text : str :=
  py "+++" ++ [10%N]
    ++ py "title = " ++ [34%N] ++ py "First" ++ [34%N] ++ [10%N]
    ++ py "title = 'Second'" ++ [10%N]
    ++ py "+++" ++ [10%N].

Definition unclosed_text : str :=
  py "+++" ++ [10%N] ++ py "title = " ++ [34%N] ++ py "Draft" ++ [34%N] ++ [10%N]
    ++ py "Some text." ++ [10%N].

(** A path component without a slash or a backslash; one that is moreover
    not empty, as the components of a path on disk are; and a relative path
    whose first component starts with an underscore. *)
Definition sep_free (w : str) : bool :=
  forallb (fun c => negb (chr_eqb c 47%N || chr_eqb c 92%N)) w.

Definition component_ok (w : str) : bool :=
  match w with
  | [] => false
  | _ :: _ => sep_free w
  end.

Definition underscored (rel : path) : bool :=
  match rel with
  | [] => false
  | part0 :: _ => startswith part0 (py "_")
  end.

(** [not_after lt x y]: [y] is not smaller than [x], the order in which a
    sorted list holds its elements. *)
Definition not_after (T : Type) (lt : T -> T -> bool) (x y : T) : Prop :=
  lt y x = false.

(** The files the loop of [main] does not skip and the files that end up in
    the index. *)
Definition kept (f : path * node) : bool := negb (underscored (fst f)).

Definition indexed (f : path * node) : bool :=
  endswith (name (fst f)) (py ".md") && negb (underscored (fst f)).

(** The entry of one content file: title and description from its front
    matter, URL from its relative path. *)
Definition entry_for (ucd : UnicodeData) (base_url : str) (f : path * node)
  : result entry :=
  ' (title, description) <- parse_front_matter ucd (fst f) (snd f) ;;
  Ok {| entry_title := title;
        entry_url := path_to_url (path_str (fst f)) base_url;
        entry_description := description |}.

(** Sample files: a configuration with a comment and two [base_url] lines,
    and the world of a first run. *)
Definition two_urls_config : str :=
  py "# site" ++ [10%N]
    ++ py "base_url = " ++ [34%N] ++ py "https://x.test//" ++ [34%N] ++ [10%N]
    ++ py "base_url = 'https://other.test'" ++ [10%N].

Definition fresh_world : world :=
  {| config_toml := Readable (py "base_url = 'https://x.test/'");
     content := [([py "docs"; py "guide.md"], File hello_world_text)];
     static_fault := None;
     site_index_json := None |}.


(** More sample files: the block between the delimiters of
    [hello_world_text], a tree with an underscore directory below [docs], the
    list built from it, and a world whose one page has an accent in its
    title. *)
Definition hello_world_block : str :=
  [10%N] ++ py "title = " ++ [34%N] ++ py "Hello" ++ [34%N] ++ [10%N]
    ++ py "description = " ++ [34%N] ++ py "World" ++ [34%N] ++ [10%N].

Definition nested_tree : list (path * node) :=
  [ ([py "docs"; py "_private"; py "x.md"], File (py "notes"));
    ([py "docs"; py "guide.md"], File hello_world_text) ].

Definition nested_entries : list entry :=
  static_entries DEFAULT_BASE_URL
    ++ [ {| entry_title := py "X";
            entry_url := DEFAULT_BASE_URL ++ py "/docs/_private/x/";
            entry_description := [] |};
         {| entry_title := py "Hello";
            entry_url := DEFAULT_BASE_URL ++ py "/docs/guide/";
            entry_description := py "World" |} ].

Definition cafe_world : world :=
  {| config_toml := Readable [];
     content :=
       [ ([py "cafe.md"],
          File (py "+++" ++ [10%N] ++ py "title = 'Caf" ++ [233%N] ++ py "'"
                  ++ [10%N] ++ py "+++" ++ [10%N])) ];
     static_fault := None;
     site_index_json := None |}.

(** Texts made of line feeds and printable ASCII characters, and texts of
    code points below 128. *)
Definition ascii_text (s : str) : bool :=
  forallb (fun c => (c =? 10)%N || (32 <=? c)%N && (c <=? 126)%N) s.

Definition ascii_str (s : str) : bool := forallb (fun c => (c <? 128)%N) s.

(** Unicode tables that drop every character above 127: a second value of
    the parameter to compare [ascii_only] with. *)
Definition dropping_tables : UnicodeData :=
  {| ucd_totitle := fun _ => [];
     ucd_tolower := fun _ _ _ => [];
     ucd_iscased := fun _ => true |}.

(** [starts_assignment key s v]: the text [s] is the key, blanks, [=],
    blanks, a quote character, the non-empty text [v] without quote
    characters, a quote character and anything; the two quote characters
    need not be the same one. *)
Definition starts_assignment (key s v : str) : Prop :=
  exists (ws1 ws2 rest : str) (q1 q2 : char),
    s = key ++ ws1 ++ [61%N] ++ ws2 ++ [q1] ++ v ++ [q2] ++ rest
    /\ blank ws1 /\ blank ws2
    /\ isquote q1 = true /\ isquote q2 = true
    /\ v <> [] /\ unquoted v.


(** The lines the loop of [get_base_url] gets to see. *)
Definition lines_read (config : config_state) : list str :=
  match config with
  | Missing => []
  | Readable text => readlines text
  | Faulty lines _ => lines
  end.






(** [assigns key line v]: the line is blanks, the key, blanks, [=], blanks,
    a quote character, the non-empty text [v] without quote characters, a
    quote character and anything.  [key_line key line]: the first thing on
    the line after blanks is the key. *)
Definition assigns (key line v : str) : Prop :=
  exists (indent ws1 ws2 rest : str) (q1 q2 : char),
    line = indent ++ key ++ ws1 ++ [61%N] ++ ws2 ++ [q1] ++ v ++ [q2] ++ rest
    /\ blank indent /\ blank ws1 /\ blank ws2
    /\ isquote q1 = true /\ isquote q2 = true
    /\ v <> [] /\ unquoted v.

Definition key_line (key line : str) : Prop :=
  exists indent rest : str, blank indent /\ line = indent ++ key ++ rest.

(** A front matter whose title holds three plus signs, and the worlds of a
    first run and of a later run: the same files enumerated in another order,
    an older index in place. *)
Definition cpp_text : str :=
  py "+++" ++ [10%N]
    ++ py "title = " ++ [34%N] ++ py "C+++ tips" ++ [34%N] ++ [10%N]
    ++ py "description = " ++ [34%N] ++ py "Notes" ++ [34%N] ++ [10%N]
    ++ py "+++" ++ [10%N] ++ py "body".



(** A configuration line that does not start with an assignment of
    [base_url]. *)
Definition no_base_url (line : str) : Prop :=
  forall v : str, ~ starts_assignment (py "base_url") line v.

(** [occurs sub s]: the text [s] holds [sub] somewhere. *)
Definition occurs (sub s : str) : Prop := exists a b : str, s = a ++ sub ++ b.


(** [reassigns key line]: the first thing on the line after blanks is the
    key, and somewhere on the line an assignment of the key starts. *)
Definition reassigns (key line : str) : Prop :=
  key_line key line
  /\ exists (before s v : str),
       line = before ++ s /\ starts_assignment key s v.

(** More front matters: a title with an apostrophe between double quotes,
    and an empty title. *)
Definition whats_new_text : str :=
  py "+++" ++ [10%N]
    ++ py "title = " ++ [34%N] ++ py "What's New" ++ [34%N] ++ [10%N]
    ++ py "+++" ++ [10%N].

Definition empty_title_text : str :=
  py "+++" ++ [10%N]
    ++ py "title = " ++ [34%N] ++ [34%N] ++ [10%N]
    ++ py "+++" ++ [10%N].

(** * Properties *)

(** ** Strings and lists *)

Arguments chr_eqb : simpl never.

Lemma chr_eqb_eq (a b : char) : chr_eqb a b = true <-> a = b.
Proof. apply N.eqb_eq. Qed.

Lemma chr_eqb_refl (a : char) : chr_eqb a a = true.
Proof. apply N.eqb_refl. Qed.

Lemma chr_eqb_neq (a b : char) : chr_eqb a b = false <-> a <> b.
Proof. apply N.eqb_neq. Qed.

Lemma str_eqb_eq (a b : str) : str_eqb a b = true <-> a = b.
Proof.
  revert b; induction a as [|x a IH]; intros [|y b]; simpl;
    try (split; [discriminate | discriminate]); try tauto.
  rewrite andb_true_iff, chr_eqb_eq, IH.
  split; [intros [-> ->]; reflexivity | intros H; inversion H; auto].
Qed.

Lemma startswith_app (p s : str) : startswith (p ++ s) p = true.
Proof.
  induction p as [|a p IH]; simpl; [reflexivity|].
  now rewrite chr_eqb_refl.
Qed.

Lemma startswith_prefix (s p : str) :
  startswith s p = true -> s = p ++ skipn (length p) s.
Proof.
  revert s; induction p as [|a p IH]; intros s H; simpl in *; [reflexivity|].
  destruct s as [|b s]; [discriminate|].
  apply andb_true_iff in H as [Hab Hs].
  apply chr_eqb_eq in Hab; subst b.
  simpl. f_equal. now apply IH.
Qed.

Lemma skipn_length_app (p s : str) : skipn (length p) (p ++ s) = s.
Proof. induction p; simpl; auto. Qed.

Lemma last_cons_default (A : Type) (l : list A) (z d d' : A) :
  last (z :: l) d = last (z :: l) d'.
Proof.
  revert z; induction l as [|y l IH]; intros z; [reflexivity|].
  change (last (y :: l) d = last (y :: l) d'). apply IH.
Qed.

Lemma last_app_default (A : Type) (l1 l2 : list A) (d : A) :
  last (l1 ++ l2) d = last l2 (last l1 d).
Proof.
  induction l1 as [|x l1 IH]; [reflexivity|].
  destruct l1 as [|y l1].
  - destruct l2 as [|z l2]; [reflexivity|].
    change (last (z :: l2) d = last (z :: l2) x). apply last_cons_default.
  - change (last ((y :: l1) ++ l2) d = last l2 (last (y :: l1) d)).
    exact IH.
Qed.

Lemma dropwhile_head (f : char -> bool) (s r : str) (c : char) :
  dropwhile f s = c :: r -> f c = false.
Proof.
  induction s as [|x s IH]; simpl; [discriminate|].
  destruct (f x) eqn:E; [exact IH|].
  intros H; inversion H; subst; exact E.
Qed.

Lemma dropwhile_split (f : char -> bool) (s : str) :
  exists pre, s = pre ++ dropwhile f s /\ Forall (fun c => f c = true) pre.
Proof.
  induction s as [|x s [pre [E F]]]; simpl.
  - exists []. split; [reflexivity | constructor].
  - destruct (f x) eqn:Ex.
    + exists (x :: pre). split; [simpl; congruence | now constructor].
    + exists []. split; [reflexivity | constructor].
Qed.

(** What [rstrip("/")] leaves does not end in a slash, and what it removes
    is slashes only. *)
Lemma rstrip_slash_spec (s : str) :
  endswith (rstrip_chars (py "/") s) (py "/") = false
  /\ exists tail, s = rstrip_chars (py "/") s ++ tail
                  /\ Forall (fun c => c = 47%N) tail.
Proof.
  unfold rstrip_chars, endswith. split.
  - rewrite rev_involutive.
    destruct (dropwhile _ (rev s)) as [|c r] eqn:E; [reflexivity|].
    apply dropwhile_head in E. simpl in *.
    rewrite orb_false_r in E. rewrite andb_true_r.
    apply chr_eqb_neq. apply chr_eqb_neq in E. congruence.
  - destruct (dropwhile_split (fun c => existsb (chr_eqb c) (py "/")) (rev s))
      as [pre [E F]].
    exists (rev pre). split.
    + rewrite <- rev_app_distr, <- E. now rewrite rev_involutive.
    + apply Forall_rev. eapply Forall_impl; [|exact F].
      simpl. intros c Hc. rewrite orb_false_r in Hc.
      now apply chr_eqb_eq in Hc.
Qed.

(** ** The regular expressions on an assignment

    [key], blanks, [=], blanks, a quote, a non-empty text without quotes and
    a quote: the match captures the text. *)

Lemma re_star_skip (R : Type) (f : char -> bool) (k : str -> option R)
    (ws rest : str) (r : R) :
  Forall (fun c => f c = true) ws ->
  re_star f k rest = Some r ->
  re_star f k (ws ++ rest) = Some r.
Proof.
  induction 1 as [|c ws Hc _ IH]; intros Hk; simpl; [exact Hk|].
  rewrite Hc, (IH Hk). reflexivity.
Qed.

Lemma re_star_stop (R : Type) (f : char -> bool) (k : str -> option R)
    (c : char) (rest : str) :
  f c = false -> re_star f k (c :: rest) = k (c :: rest).
Proof. intros H; simpl; now rewrite H. Qed.

Lemma re_star_group_take (R : Type) (f : char -> bool)
    (k : str -> str -> option R) (v : str) :
  forall (acc : str) (c : char) (rest : str) (r : R),
  Forall (fun x => f x = true) v ->
  f c = false ->
  k (acc ++ v) (c :: rest) = Some r ->
  re_star_group f acc k (v ++ c :: rest) = Some r.
Proof.
  induction v as [|x v IH]; intros acc c rest r Hv Hc Hk; simpl.
  - rewrite Hc. now rewrite app_nil_r in Hk.
  - inversion Hv as [|? ? Hx Hv']; subst.
    rewrite Hx, (IH (acc ++ [x]) c rest r Hv' Hc); [reflexivity|].
    now rewrite <- app_assoc.
Qed.

Lemma isspace_not_quote (c : char) : isquote c = true -> isspace c = false.
Proof.
  unfold isquote. rewrite orb_true_iff, !N.eqb_eq.
  intros [-> | ->]; reflexivity.
Qed.

Lemma re_match_assignment (key ws1 ws2 v rest : str) (q1 q2 : char) :
  blank ws1 -> blank ws2 ->
  isquote q1 = true -> isquote q2 = true ->
  v <> [] -> unquoted v ->
  re_match key (key ++ ws1 ++ [61%N] ++ ws2 ++ [q1] ++ v ++ [q2] ++ rest)
  = Some v.
Proof.
  intros H1 H2 Hq1 Hq2 Hv Hu.
  unfold re_match, re_lit.
  rewrite startswith_app, skipn_length_app.
  apply re_star_skip; [exact H1|].
  simpl app at 1. rewrite re_star_stop by reflexivity.
  unfold re_set at 1. rewrite chr_eqb_refl.
  apply re_star_skip; [exact H2|].
  simpl app at 1. rewrite re_star_stop by (now apply isspace_not_quote).
  unfold re_set at 1. rewrite Hq1.
  destruct v as [|x v]; [congruence|].
  inversion Hu as [|? ? Hx Hu']; subst.
  simpl. rewrite Hx.
  apply re_star_group_take; [exact Hu' | now rewrite Hq2 |].
  simpl. now rewrite Hq2.
Qed.

Lemma re_search_here (key s g : str) :
  re_match key s = Some g -> re_search key s = Some g.
Proof. intros H; destruct s; simpl; now rewrite H. Qed.

Lemma re_search_next (key s : str) (c : char) :
  re_match key (c :: s) = None -> re_search key (c :: s) = re_search key s.
Proof. intros H; simpl; now rewrite H. Qed.

Lemma re_search_assignment (key' indent ws1 ws2 v rest : str) (k0 q1 q2 : char) :
  isspace k0 = false ->
  blank indent -> blank ws1 -> blank ws2 ->
  isquote q1 = true -> isquote q2 = true ->
  v <> [] -> unquoted v ->
  re_search (k0 :: key')
    (indent ++ (k0 :: key') ++ ws1 ++ [61%N] ++ ws2 ++ [q1] ++ v ++ [q2] ++ rest)
  = Some v.
Proof.
  intros Hk Hi H1 H2 Hq1 Hq2 Hv Hu.
  induction Hi as [|c indent Hc _ IH].
  - apply re_search_here. now apply re_match_assignment.
  - rewrite <- app_comm_cons, re_search_next; [exact IH|].
    unfold re_match, re_lit. simpl.
    destruct (chr_eqb k0 c) eqn:E; [|reflexivity].
    apply chr_eqb_eq in E; subst c. congruence.
Qed.

(** ** The configuration reader *)

Lemma get_base_url_lines_none (lines : list str) (at_end : result str) :
  Forall (fun line => re_match (py "base_url") line = None) lines ->
  get_base_url_lines lines at_end = at_end.
Proof.
  induction 1 as [|line lines Hl _ IH]; simpl; [reflexivity|].
  now rewrite Hl.
Qed.

Lemma get_base_url_lines_first (before after : list str) (line g1 : str)
    (at_end : result str) :
  Forall (fun line => re_match (py "base_url") line = None) before ->
  re_match (py "base_url") line = Some g1 ->
  get_base_url_lines (before ++ line :: after) at_end
  = Ok (rstrip_chars (py "/") g1).
Proof.
  intros Hb Hm.
  induction Hb as [|l before Hl _ IH]; simpl.
  - now rewrite Hm.
  - now rewrite Hl.
Qed.

(** C2, as stated, fails when the file is missing: [open] raises and the
    default is not returned. *)
Lemma get_base_url_missing_file :
  get_base_url Missing = Raise FileNotFoundError
  /\ get_base_url Missing <> Ok DEFAULT_BASE_URL.
Proof. split; [reflexivity | discriminate]. Qed.

(** A configuration path that is a directory, and a file whose first line
    matches and whose later bytes do not decode. *)
Example get_base_url_unreadable :
  get_base_url (Faulty [] IsADirectoryError) = Raise IsADirectoryError
  /\ get_base_url (Faulty [py "base_url = 'https://x.test/'" ++ [10%N]]
                     UnicodeDecodeError)
     = Ok (py "https://x.test").
Proof. split; reflexivity. Qed.

(** ** The front-matter extractor *)

Lemma fold_front_matter_line (lines : list str) :
  forall title description : str,
  fold_left front_matter_line lines (title, description)
  = (last (field_values (py "title") lines) title,
     last (field_values (py "description") lines) description).
Proof.
  induction lines as [|line lines IH]; intros t d; [reflexivity|].
  cbn [fold_left]. unfold front_matter_line at 2. rewrite IH.
  unfold field_values. cbn [flat_map]. rewrite !last_app_default.
  f_equal.
  - destruct (startswith (strip line) (py "title")); [|reflexivity].
    destruct (re_search (py "title") line); reflexivity.
  - destruct (startswith (strip line) (py "description")); [|reflexivity].
    destruct (re_search (py "description") line); reflexivity.
Qed.

(** C1 fails on the code: when a text opens a front matter and no [+++]
    follows, [text.index] raises [ValueError] out of the extractor, whatever
    the file is called; no default is returned. *)
Theorem unclosed_front_matter_raises (ucd : UnicodeData) (p : path)
    (text : str) :
  startswith text (py "+++") = true ->
  find (skipn 3 text) (py "+++") = None ->
  parse_front_matter ucd p (File text) = Raise ValueError.
Proof.
  intros Hopen Hnone. unfold parse_front_matter, index. cbn [read_text bind].
  now rewrite Hopen, Hnone.
Qed.

Lemma unclosed_draft_raises :
  (startswith unclosed_text (py "+++") = true
   /\ find (skipn 3 unclosed_text) (py "+++") = None)
  /\ parse_front_matter ascii_only [py "draft.md"] (File unclosed_text)
     = Raise ValueError.
Proof.
  split; [split; reflexivity|].
  exact (@unclosed_front_matter_raises ascii_only [py "draft.md"] unclosed_text
           eq_refl eq_refl).
Defined.

(** With such a file in the tree [main] stops on the exception and leaves
    the files as they were. *)
Example main_stops_on_unclosed_front_matter (ucd : UnicodeData) (w : world) :
  config_toml w = Readable [] ->
  content w = [([py "draft.md"], File unclosed_text)] ->
  main ucd w = (Raise ValueError, w).
Proof.
  intros Hc Ht. unfold main, build_entries. rewrite Hc, Ht. reflexivity.
Qed.

(** The second of two title lines is the one returned. *)
Example two_titles_second_wins (ucd : UnicodeData) (p : path) :
  parse_front_matter ucd p (File two_titles_text) = Ok (py "Second", []).
Proof. reflexivity. Qed.

Lemma dropwhile_app_stop (f : char -> bool) (a b : str) (c : char) :
  f c = false -> exists a', dropwhile f (a ++ c :: b) = a' ++ c :: b.
Proof.
  intros Hc. induction a as [|x a [a' IH]]; simpl.
  - exists []. now rewrite Hc.
  - destruct (f x); [exists a'; exact IH | now exists (x :: a)].
Qed.

Lemma dropwhile_blank (f : char -> bool) (ws rest : str) :
  Forall (fun c => f c = true) ws -> dropwhile f (ws ++ rest) = dropwhile f rest.
Proof. induction 1 as [|c ws Hc _ IH]; simpl; [reflexivity | now rewrite Hc]. Qed.

Lemma strip_keeps_key (indent key rest : str) (k0 kl : char) (key' key'' : str) :
  blank indent ->
  key = k0 :: key' -> isspace k0 = false ->
  rev key = kl :: key'' -> isspace kl = false ->
  startswith (strip (indent ++ key ++ rest)) key = true.
Proof.
  intros Hi E0 H0 El Hl. unfold strip, lstrip, rstrip.
  rewrite (@dropwhile_blank isspace indent _ Hi).
  assert (Hd : dropwhile isspace (key ++ rest) = key ++ rest)
    by (rewrite E0; simpl; now rewrite H0).
  rewrite Hd.
  rewrite rev_app_distr, El.
  destruct (@dropwhile_app_stop isspace (rev rest) key'' kl Hl) as [a' Ea].
  rewrite Ea.
  change (a' ++ kl :: key'') with (a' ++ (kl :: key'')).
  rewrite <- El, rev_app_distr, rev_involutive.
  apply startswith_app.
Qed.

(** A line of the form [title = Q v Q], indented or not, sets the title to
    [v]: its stripped text starts with the key and the pattern is found. *)
Theorem front_matter_line_assigns_title (indent ws1 ws2 v rest title d : str)
    (q1 q2 : char) :
  blank indent -> blank ws1 -> blank ws2 ->
  isquote q1 = true -> isquote q2 = true ->
  v <> [] -> unquoted v ->
  fst (front_matter_line (title, d)
         (indent ++ py "title" ++ ws1 ++ [61%N] ++ ws2 ++ [q1] ++ v ++ [q2] ++ rest))
  = v.
Proof.
  intros Hi H1 H2 Hq1 Hq2 Hv Hu.
  unfold front_matter_line.
  rewrite (@strip_keeps_key indent (py "title") _ 116%N 101%N (py "itle") (rev (py "titl")))
    by (try reflexivity; assumption).
  pose proof (@re_search_assignment (py "itle") indent ws1 ws2 v rest 116%N
                q1 q2 eq_refl Hi H1 H2 Hq1 Hq2 Hv Hu) as Hs.
  change (116%N :: py "itle") with (py "title") in Hs. rewrite Hs.
  destruct (startswith _ (py "description")); [|reflexivity].
  destruct (re_search (py "description") _); reflexivity.
Qed.

Lemma indented_title_line_assigns :
  (blank (py "  ") /\ blank (py " ") /\ blank (py " ")
   /\ isquote 34%N = true /\ isquote 34%N = true
   /\ py "Hello" <> [] /\ unquoted (py "Hello"))
  /\ fst (front_matter_line (py "Default", [])
            (py "  title = " ++ [34%N] ++ py "Hello" ++ [34%N] ++ py " # shown"))
     = py "Hello".
Proof.
  assert (Hb2 : blank (py "  ")) by (repeat constructor).
  assert (Hb1 : blank (py " ")) by (repeat constructor).
  assert (Hu : unquoted (py "Hello")) by (repeat constructor).
  assert (Hn : py "Hello" <> []) by discriminate.
  split; [repeat split; assumption|].
  exact (@front_matter_line_assigns_title (py "  ") (py " ") (py " ")
           (py "Hello") (py " # shown") (py "Default") [] 34%N 34%N
           Hb2 Hb1 Hb1 eq_refl eq_refl Hn Hu).
Defined.

Lemma rfind_app_last (c : char) (a b : str) :
  rfind c b = None -> rfind c (a ++ c :: b) = Some (length a).
Proof.
  intros Hb. induction a as [|x a IH]; simpl.
  - now rewrite Hb, chr_eqb_refl.
  - now rewrite IH.
Qed.

(** The stem of a name [base.md] is [base], unless [base] is empty. *)
Lemma stem_md (dirs : list str) (base : str) :
  base <> [] -> stem (dirs ++ [base ++ py ".md"]) = base.
Proof.
  intros Hb. unfold stem, name. rewrite last_last.
  change (py ".md") with (46%N :: py "md").
  rewrite rfind_app_last by reflexivity.
  rewrite length_app. cbn [length py map list_ascii_of_string].
  destruct base as [|x base]; [congruence|].
  replace (0 <? length (x :: base)) with true
    by (symmetry; apply Nat.ltb_lt; simpl; lia).
  replace (length (x :: base) <? length (x :: base) + 3 - 1) with true
    by (symmetry; apply Nat.ltb_lt; lia).
  cbn [andb]. rewrite firstn_app, firstn_all, Nat.sub_diag.
  cbn [firstn]. apply app_nil_r.
Qed.


(** ** The URL deriver *)

Lemma sep_free_spec (w : str) :
  sep_free w = true -> ~ In 47%N w /\ ~ In 92%N w.
Proof.
  unfold sep_free. rewrite forallb_forall. intros H.
  split; intros Hin; apply H in Hin; rewrite chr_eqb_refl in Hin;
    [|rewrite orb_true_r in Hin]; discriminate.
Qed.

Lemma replace_absent (c : char) (new s : str) :
  ~ In c s -> replace [c] new s = s.
Proof.
  unfold replace. induction s as [|x s IH]; intros Hc; [reflexivity|].
  cbn [replace_from startswith].
  destruct (chr_eqb c x) eqn:E.
  - apply chr_eqb_eq in E. subst x. exfalso. apply Hc. now left.
  - cbn [andb]. f_equal. apply IH. intros H. apply Hc. now right.
Qed.

Lemma split_absent (sep : char) (w : str) : ~ In sep w -> split sep w = [w].
Proof.
  induction w as [|x w IH]; intros Hs; [reflexivity|].
  cbn [split]. destruct (chr_eqb x sep) eqn:E.
  - apply chr_eqb_eq in E. subst x. exfalso. apply Hs. now left.
  - rewrite IH; [reflexivity|]. intros H. apply Hs. now right.
Qed.

Lemma split_app_sep (sep : char) (w s : str) :
  ~ In sep w -> split sep (w ++ sep :: s) = w :: split sep s.
Proof.
  induction w as [|x w IH]; intros Hs.
  - cbn [app split]. now rewrite chr_eqb_refl.
  - cbn [app split]. destruct (chr_eqb x sep) eqn:E.
    + apply chr_eqb_eq in E. subst x. exfalso. apply Hs. now left.
    + rewrite IH; [reflexivity|]. intros H. apply Hs. now right.
Qed.

Lemma join_cons2 (sep x y : str) (l : list str) :
  join sep (x :: y :: l) = x ++ sep ++ join sep (y :: l).
Proof. reflexivity. Qed.

Lemma split_join (sep : char) (l : list str) :
  l <> [] -> Forall (fun w => ~ In sep w) l -> split sep (join [sep] l) = l.
Proof.
  intros Hne Hl. induction l as [|x l IH]; [congruence|].
  inversion Hl as [|? ? Hx Hl']; subst.
  destruct l as [|y l].
  - now apply split_absent.
  - rewrite join_cons2. cbn [app]. rewrite split_app_sep by exact Hx.
    f_equal. apply IH; [discriminate | exact Hl'].
Qed.

Lemma split_not_nil (sep : char) (s : str) : split sep s <> [].
Proof.
  destruct s as [|c s]; cbn [split]; [discriminate|].
  destruct (chr_eqb c sep); [discriminate|].
  destruct (split sep s); discriminate.
Qed.

Lemma join_split (sep : char) (s : str) : join [sep] (split sep s) = s.
Proof.
  induction s as [|c s IH]; [reflexivity|].
  pose proof (split_not_nil sep s) as Hne.
  cbn [split]. destruct (split sep s) as [|w ws]; [congruence|].
  destruct (chr_eqb c sep) eqn:E.
  - apply chr_eqb_eq in E. subst c. rewrite join_cons2, IH. reflexivity.
  - destruct ws as [|w2 ws].
    + simpl in *. now rewrite IH.
    + rewrite join_cons2 in *. rewrite <- IH. reflexivity.
Qed.

Lemma in_join (c : char) (sep : str) (l : list str) :
  In c (join sep l) -> In c sep \/ exists w, In w l /\ In c w.
Proof.
  induction l as [|x l IH]; [intros []|].
  destruct l as [|y l].
  - intros H. right. exists x. split; [now left | exact H].
  - rewrite join_cons2, !in_app_iff. intros [H | [H | H]].
    + right. exists x. split; [now left | exact H].
    + now left.
    + destruct (IH H) as [Hs | [w [Hw Hc]]]; [now left|].
      right. exists w. split; [now right | exact Hc].
Qed.

Lemma join_nil (sep : str) (l : list str) :
  sep <> [] -> join sep l = [] -> l = [] \/ l = [[]].
Proof.
  intros Hs. destruct l as [|x l]; [now left|].
  destruct l as [|y l].
  - intros H. right. simpl in H. now subst.
  - rewrite join_cons2. intros H.
    apply app_eq_nil in H as [_ H]. apply app_eq_nil in H as [H _].
    congruence.
Qed.

Lemma path_to_url_parts (parts : list str) (base_url : str) :
  parts <> [] -> forallb sep_free parts = true ->
  path_to_url (join (py "/") parts) base_url
  = if str_eqb (last parts []) (py "_index.md")
    then base_url ++ py "/" ++ join (py "/") (removelast parts) ++ py "/"
    else base_url ++ py "/"
           ++ join (py "/")
                (removelast parts ++ [replace (py ".md") [] (last parts [])])
           ++ py "/".
Proof.
  intros Hne Hf. unfold path_to_url.
  rewrite forallb_forall in Hf.
  rewrite replace_absent.
  - change (py "/") with [47%N]. rewrite split_join; [reflexivity | exact Hne |].
    apply Forall_forall. intros w Hw. now apply sep_free_spec, Hf.
  - intros H. apply in_join in H as [H | [w [Hw Hc]]].
    + simpl in H. destruct H as [H | []]. discriminate.
    + now apply (@sep_free_spec w (Hf w Hw)).
Qed.

Lemma replace_md_suffix (s : str) :
  find (s ++ py ".md") (py ".md") = Some (length s) ->
  replace (py ".md") [] (s ++ py ".md") = s.
Proof.
  unfold replace. induction s as [|x s IH]; intros Hf; [reflexivity|].
  rewrite <- app_comm_cons in *.
  cbn [find] in Hf. cbn [replace_from].
  destruct (startswith (x :: s ++ py ".md") (py ".md")); [discriminate|].
  f_equal. apply IH.
  destruct (find (s ++ py ".md") (py ".md")); simpl in Hf; congruence.
Qed.

Lemma double_slash_inv (base_url middle : str) :
  base_url ++ py "/" ++ middle ++ py "/" = base_url ++ py "//" -> middle = [].
Proof.
  intros H. apply app_inv_head in H. injection H as H.
  now apply (@app_inv_tail char (py "/") middle []).
Qed.

Lemma path_to_url_not_double_slash (rel : path) (base_url : str) :
  forallb component_ok rel = true ->
  underscored rel = false ->
  replace (py ".md") [] (name rel) <> [] ->
  rel <> [] ->
  path_to_url (path_str rel) base_url <> base_url ++ py "//".
Proof.
  intros Hok Hu Hstem Hne Hurl.
  assert (Hsep : forallb sep_free rel = true).
  { rewrite forallb_forall in *. intros w Hw. specialize (Hok w Hw).
    destruct w; [discriminate | exact Hok]. }
  assert (Hstr : path_str rel = join (py "/") rel) by (destruct rel; [congruence | reflexivity]).
  rewrite Hstr, (@path_to_url_parts rel base_url Hne Hsep) in Hurl.
  destruct (str_eqb (last rel []) (py "_index.md")) eqn:Hidx.
  - apply str_eqb_eq in Hidx. apply double_slash_inv in Hurl.
    pose proof (@app_removelast_last str rel [] Hne) as Hrel.
    apply join_nil in Hurl as [Hr | Hr]; [| | discriminate];
      rewrite Hr, Hidx in Hrel; rewrite Hrel in *; discriminate.
  - apply double_slash_inv in Hurl.
    apply join_nil in Hurl as [Hr | Hr]; [| | discriminate].
    + now destruct (removelast rel).
    + apply (@app_inj_tail str (removelast rel) []) in Hr as [_ Hr].
      now apply Hstem.
Qed.

(** C4: a path whose last component is [_index.md] maps to the URL of the
    directory that holds it: the base URL, a slash, the other components
    joined by slashes, and a slash.  This is stated for a path given as a
    text without backslashes and for a path given by its components.
    [docs/_index.md] under [https://x.test] gives [https://x.test/docs/],
    and a bare [_index.md] gives the base URL followed by two slashes. *)
Theorem path_to_url_section_index (base_url : str) :
  (forall rel_path : str,
     ~ In 92%N rel_path ->
     last (split 47%N rel_path) [] = py "_index.md" ->
     path_to_url rel_path base_url
     = base_url ++ py "/"
         ++ join (py "/") (removelast (split 47%N rel_path)) ++ py "/")
  /\ (forall dirs : list str,
        forallb sep_free dirs = true ->
        path_to_url (join (py "/") (dirs ++ [py "_index.md"])) base_url
        = base_url ++ py "/" ++ join (py "/") dirs ++ py "/")
  /\ path_to_url (py "docs/_index.md") (py "https://x.test")
     = py "https://x.test/docs/"
  /\ path_to_url (py "_index.md") base_url = base_url ++ py "//".
Proof.
  split; [|split; [|split; reflexivity]].
  - intros rel_path Hback Hlast. unfold path_to_url.
    rewrite replace_absent by exact Hback. rewrite Hlast.
    reflexivity.
  - intros dirs Hd.
    rewrite path_to_url_parts.
    + now rewrite last_last, removelast_last.
    + now destruct dirs.
    + rewrite forallb_app, Hd. reflexivity.
Qed.

Lemma path_to_url_nested_index :
  forallb sep_free [py "docs"; py "api"] = true
  /\ path_to_url (py "docs/api/_index.md") (py "https://x.test")
     = py "https://x.test/docs/api/".
Proof.
  split; [reflexivity|].
  exact (proj1 (proj2 (path_to_url_section_index (py "https://x.test")))
           [py "docs"; py "api"] eq_refl).
Defined.

(** C3 fails on the code: [replace] removes every [.md] of the last
    component, not only the trailing one, so [docs/setup.mdx.md] loses the
    [.md] inside its stem. *)
Theorem path_to_url_inner_md :
  path_to_url (py "docs/setup.mdx.md") (py "https://x.test")
  = py "https://x.test/docs/setupx/"
  /\ path_to_url (py "docs/setup.mdx.md") (py "https://x.test")
     <> py "https://x.test/docs/setup.mdx/".
Proof. split; [reflexivity | discriminate]. Qed.

(** Where the last component holds [.md] only as its suffix, the URL is the
    one of the ordinary-page rule: the stem is the component without that
    suffix. *)
Theorem path_to_url_page (base_url : str) (dirs : list str) (stem_ : str) :
  forallb sep_free (dirs ++ [stem_]) = true ->
  find (stem_ ++ py ".md") (py ".md") = Some (length stem_) ->
  stem_ <> py "_index" ->
  path_to_url (join (py "/") (dirs ++ [stem_ ++ py ".md"])) base_url
  = base_url ++ py "/" ++ join (py "/") (dirs ++ [stem_]) ++ py "/".
Proof.
  intros Hf Hfind Hidx.
  rewrite forallb_app in Hf. apply andb_true_iff in Hf as [Hd Hs].
  cbn [forallb] in Hs. rewrite andb_true_r in Hs.
  rewrite path_to_url_parts.
  - rewrite last_last, removelast_last, (replace_md_suffix _ Hfind).
    destruct (str_eqb (stem_ ++ py ".md") (py "_index.md")) eqn:E;
      [|reflexivity].
    apply str_eqb_eq in E.
    apply (@app_inv_tail char (py ".md") stem_ (py "_index")) in E.
    contradiction.
  - now destruct dirs.
  - rewrite forallb_app, Hd. cbn [forallb]. rewrite andb_true_r.
    unfold sep_free in *. rewrite forallb_app, Hs. reflexivity.
Qed.

Lemma path_to_url_docs_guide :
  (forallb sep_free ([py "docs"] ++ [py "guide"]) = true
   /\ find (py "guide" ++ py ".md") (py ".md") = Some (length (py "guide"))
   /\ py "guide" <> py "_index")
  /\ path_to_url (py "docs/guide.md") (py "https://x.test")
     = py "https://x.test/docs/guide/".
Proof.
  split; [split; [reflexivity | split; [reflexivity | discriminate]]|].
  apply (@path_to_url_page (py "https://x.test") [py "docs"] (py "guide"));
    [reflexivity | reflexivity | discriminate].
Defined.

Lemma endswith_app (s p : str) : endswith (s ++ p) p = true.
Proof. unfold endswith. rewrite rev_app_distr. apply startswith_app. Qed.

(** Every derived URL ends in a slash. *)
Theorem path_to_url_ends_with_slash (rel_path base_url : str) :
  endswith (path_to_url rel_path base_url) (py "/") = true.
Proof.
  unfold path_to_url.
  destruct (str_eqb _ _); rewrite !app_assoc; apply endswith_app.
Qed.

(** ** The order of paths *)

Section LexicographicFacts.
Variable A : Type.
Variable cmp : A -> A -> comparison.
Hypothesis cmp_eq : forall x y, cmp x y = Eq -> x = y.
Hypothesis cmp_antisym : forall x y, cmp y x = CompOpp (cmp x y).
Hypothesis cmp_trans : forall x y z, cmp x y = Lt -> cmp y z = Lt -> cmp x z = Lt.

Lemma cmp_refl (x : A) : cmp x x = Eq.
Proof.
  pose proof (cmp_antisym x x) as H. destruct (cmp x x); simpl in H; congruence.
Qed.

Lemma lex_compare_eq (a b : list A) : lex_compare cmp a b = Eq -> a = b.
Proof.
  revert b; induction a as [|x a IH]; intros [|y b]; simpl;
    try discriminate; [reflexivity|].
  destruct (cmp x y) eqn:E; try discriminate.
  intros H. f_equal; [now apply cmp_eq | now apply IH].
Qed.

Lemma lex_compare_antisym (a b : list A) :
  lex_compare cmp b a = CompOpp (lex_compare cmp a b).
Proof.
  revert b; induction a as [|x a IH]; intros [|y b]; simpl; try reflexivity.
  rewrite (cmp_antisym x y). destruct (cmp x y); simpl; auto.
Qed.

Lemma lex_compare_trans (a b c : list A) :
  lex_compare cmp a b = Lt -> lex_compare cmp b c = Lt ->
  lex_compare cmp a c = Lt.
Proof.
  revert b c; induction a as [|x a IH]; intros [|y b] [|z c]; simpl;
    try discriminate; try reflexivity.
  destruct (cmp x y) eqn:Exy; try discriminate;
    destruct (cmp y z) eqn:Eyz; try discriminate; intros H1 H2.
  - apply cmp_eq in Exy. apply cmp_eq in Eyz. subst. rewrite cmp_refl.
    eapply IH; eassumption.
  - apply cmp_eq in Exy. subst. now rewrite Eyz.
  - apply cmp_eq in Eyz. subst. now rewrite Exy.
  - now rewrite (@cmp_trans x y z Exy Eyz).
Qed.
End LexicographicFacts.

Lemma N_compare_trans (x y z : N) :
  (x ?= y)%N = Lt -> (y ?= z)%N = Lt -> (x ?= z)%N = Lt.
Proof. rewrite !N.compare_lt_iff. apply N.lt_trans. Qed.

Lemma str_compare_eq (a b : str) : str_compare a b = Eq -> a = b.
Proof. apply lex_compare_eq. apply N.compare_eq. Qed.

Lemma str_compare_antisym (a b : str) :
  str_compare b a = CompOpp (str_compare a b).
Proof. apply lex_compare_antisym. intros x y. apply N.compare_antisym. Qed.

Lemma str_compare_trans (a b c : str) :
  str_compare a b = Lt -> str_compare b c = Lt -> str_compare a c = Lt.
Proof.
  apply lex_compare_trans.
  - apply N.compare_eq.
  - intros x y. apply N.compare_antisym.
  - apply N_compare_trans.
Qed.

Lemma path_compare_eq (a b : path) : path_compare a b = Eq -> a = b.
Proof. apply lex_compare_eq. apply str_compare_eq. Qed.

Lemma path_compare_antisym (a b : path) :
  path_compare b a = CompOpp (path_compare a b).
Proof. apply lex_compare_antisym. apply str_compare_antisym. Qed.

Lemma path_compare_trans (a b c : path) :
  path_compare a b = Lt -> path_compare b c = Lt -> path_compare a c = Lt.
Proof.
  apply lex_compare_trans.
  - apply str_compare_eq.
  - apply str_compare_antisym.
  - apply str_compare_trans.
Qed.

(** [<] on paths is asymmetric, and being not greater is transitive. *)
Lemma path_lt_asym (a b : path) : path_lt a b = true -> path_lt b a = false.
Proof.
  unfold path_lt. rewrite (path_compare_antisym a b).
  destruct (path_compare a b); simpl; congruence.
Qed.

Lemma path_le_trans (a b c : path) :
  path_lt b a = false -> path_lt c b = false -> path_lt c a = false.
Proof.
  unfold path_lt.
  rewrite (path_compare_antisym a b), (path_compare_antisym b c),
    (path_compare_antisym a c).
  destruct (path_compare a b) eqn:Eab; simpl; try discriminate; intros _;
    destruct (path_compare b c) eqn:Ebc; simpl; try discriminate; intros _.
  - apply path_compare_eq in Eab. subst. now rewrite Ebc.
  - apply path_compare_eq in Eab. subst. now rewrite Ebc.
  - apply path_compare_eq in Ebc. subst. now rewrite Eab.
  - now rewrite (@path_compare_trans a b c Eab Ebc).
Qed.

(** The order is by component, not by the text of the path: [a/b.md] comes
    before [a-b.md], although the hyphen is the smaller character. *)
Example path_order_by_component :
  path_lt [py "a"; py "b.md"] [py "a-b.md"] = true
  /\ str_compare (py "a-b.md") (py "a/b.md") = Lt.
Proof. split; reflexivity. Qed.

(** ** [sorted] *)

Section SortedFacts.
Variable T : Type.
Variable lt : T -> T -> bool.
Hypothesis lt_asym : forall x y, lt x y = true -> lt y x = false.
Hypothesis le_trans :
  forall x y z, lt y x = false -> lt z y = false -> lt z x = false.

Lemma insert_perm (x : T) (l : list T) : Permutation (insert lt x l) (x :: l).
Proof.
  induction l as [|y l IH]; simpl; [reflexivity|].
  destruct (lt y x); [|reflexivity].
  rewrite IH. apply perm_swap.
Qed.

Lemma sorted_perm (l : list T) : Permutation (sorted lt l) l.
Proof.
  induction l as [|x l IH]; simpl; [reflexivity|].
  rewrite insert_perm. now constructor.
Qed.

Lemma insert_sorted (x : T) (l : list T) :
  StronglySorted (not_after lt) l -> StronglySorted (not_after lt) (insert lt x l).
Proof.
  induction 1 as [|y l Hl IH Hy]; simpl.
  - repeat constructor.
  - destruct (lt y x) eqn:E.
    + constructor; [exact IH|].
      apply (Permutation_Forall (Permutation_sym (insert_perm x l))).
      constructor; [|exact Hy]. now apply lt_asym.
    + constructor; [now constructor|].
      constructor; [exact E|].
      eapply Forall_impl; [|exact Hy].
      intros z Hz. unfold not_after in *. eapply le_trans; eassumption.
Qed.

Lemma sorted_sorted (l : list T) : StronglySorted (not_after lt) (sorted lt l).
Proof.
  induction l as [|x l IH]; simpl; [constructor | now apply insert_sorted].
Qed.

Lemma insert_first (x : T) (l : list T) :
  Forall (not_after lt x) l -> insert lt x l = x :: l.
Proof.
  intros H. destruct H as [|y l Hy _]; simpl; [reflexivity|].
  unfold not_after in Hy. now rewrite Hy.
Qed.

Lemma filter_insert_true (p : T -> bool) (x : T) (l : list T) :
  StronglySorted (not_after lt) l -> p x = true ->
  filter p (insert lt x l) = insert lt x (filter p l).
Proof.
  intros Hl Hp. induction Hl as [|y l Hl IH Hy]; simpl.
  - now rewrite Hp.
  - destruct (lt y x) eqn:E.
    + simpl. destruct (p y); simpl; rewrite ?E, IH; reflexivity.
    + cbn [filter]. rewrite Hp.
      change (if p y then y :: filter p l else filter p l)
        with (filter p (y :: l)).
      symmetry. apply insert_first.
      assert (Hall : Forall (not_after lt x) (y :: l)).
      { constructor; [exact E|]. eapply Forall_impl; [|exact Hy].
        intros z Hz. unfold not_after in *. eapply le_trans; eassumption. }
      rewrite Forall_forall in *. intros z Hz.
      apply Hall. apply filter_In in Hz. tauto.
Qed.

Lemma filter_insert_false (p : T -> bool) (x : T) (l : list T) :
  p x = false -> filter p (insert lt x l) = filter p l.
Proof.
  intros Hp. induction l as [|y l IH]; simpl.
  - now rewrite Hp.
  - destruct (lt y x); simpl; [now rewrite IH | now rewrite Hp].
Qed.

Lemma filter_sorted (p : T -> bool) (l : list T) :
  filter p (sorted lt l) = sorted lt (filter p l).
Proof.
  induction l as [|x l IH]; simpl; [reflexivity|].
  destruct (p x) eqn:Hp.
  - rewrite filter_insert_true by (auto using sorted_sorted). simpl.
    now rewrite IH.
  - now rewrite filter_insert_false.
Qed.
End SortedFacts.

Lemma StronglySorted_filter (T : Type) (R : T -> T -> Prop) (p : T -> bool)
    (l : list T) :
  StronglySorted R l -> StronglySorted R (filter p l).
Proof.
  induction 1 as [|x l Hl IH Hx]; simpl; [constructor|].
  destruct (p x); [|exact IH].
  constructor; [exact IH|].
  rewrite Forall_forall in *. intros z Hz. apply Hx.
  apply filter_In in Hz. tauto.
Qed.

Lemma Permutation_filter (T : Type) (p : T -> bool) (l1 l2 : list T) :
  Permutation l1 l2 -> Permutation (filter p l1) (filter p l2).
Proof.
  induction 1 as [|x l1 l2 _ IH|x y l|l1 l2 l3 _ IH1 _ IH2]; simpl.
  - constructor.
  - destruct (p x); [now constructor | exact IH].
  - destruct (p x), (p y); try reflexivity. apply perm_swap.
  - now transitivity (filter p l2).
Qed.

Lemma filter_filter (T : Type) (p q : T -> bool) (l : list T) :
  filter p (filter q l) = filter (fun x => q x && p x) l.
Proof.
  induction l as [|x l IH]; simpl; [reflexivity|].
  destruct (q x); simpl; [destruct (p x)|]; now rewrite IH.
Qed.

(** ** The assembly loop *)

Lemma bind_ok (A : Type) (c : result A) : bind c (fun x => Ok x) = c.
Proof. now destruct c. Qed.

Lemma visit_underscored (ucd : UnicodeData) (base_url : str) (f : path * node) :
  underscored (fst f) = true -> visit ucd base_url f = Ok [].
Proof.
  destruct f as [[|part0 rel] n]; simpl; [discriminate|].
  intros H. now rewrite H.
Qed.

Lemma visit_kept (ucd : UnicodeData) (base_url : str) (f : path * node)
    (es : list entry) :
  underscored (fst f) = false ->
  visit ucd base_url f = Ok es ->
  exists e, es = [e] /\ entry_for ucd base_url f = Ok e.
Proof.
  destruct f as [[|part0 rel] n]; simpl; [discriminate|].
  intros H. rewrite H. unfold entry_for. simpl.
  destruct (parse_front_matter ucd (part0 :: rel) n) as [[t d]|e]; simpl;
    [|discriminate].
  intros E. injection E as <-.
  eexists. split; [reflexivity|].
  now destruct d.
Qed.

Lemma visit_all_kept (ucd : UnicodeData) (base_url : str)
    (files : list (path * node)) :
  visit_all ucd base_url (filter kept files) = visit_all ucd base_url files.
Proof.
  induction files as [|f files IH]; [reflexivity|].
  cbn [filter]. unfold kept at 1.
  destruct (underscored (fst f)) eqn:E; cbn [negb].
  - cbn [visit_all]. rewrite (visit_underscored ucd base_url f E), IH.
    cbn [bind app]. now rewrite bind_ok.
  - cbn [visit_all]. now rewrite IH.
Qed.

Lemma visit_all_entries (ucd : UnicodeData) (base_url : str)
    (files : list (path * node)) :
  forall found : list entry,
  visit_all ucd base_url files = Ok found ->
  Forall2 (fun f e => entry_for ucd base_url f = Ok e) (filter kept files) found.
Proof.
  induction files as [|f files IH]; intros found; cbn [visit_all filter].
  - intros E. injection E as <-. constructor.
  - destruct (visit ucd base_url f) as [es|] eqn:Ev; [|discriminate].
    destruct (visit_all ucd base_url files) as [more|]; [|discriminate].
    cbn [bind]. intros E. injection E as <-.
    unfold kept at 1. destruct (underscored (fst f)) eqn:Eu; cbn [negb].
    + rewrite (visit_underscored ucd base_url f Eu) in Ev.
      injection Ev as <-. now apply IH.
    + destruct (visit_kept ucd base_url f Eu Ev) as [e [-> He]].
      constructor; [exact He | now apply IH].
Qed.

Lemma sorted_by_path_kept (files : list (path * node)) :
  sorted by_path (filter kept files) = filter kept (sorted by_path files).
Proof.
  symmetry. apply filter_sorted; unfold by_path.
  - intros x y. apply path_lt_asym.
  - intros x y z. apply path_le_trans.
Qed.

Lemma rglob_md_kept (tree : list (path * node)) :
  rglob_md (filter kept tree) = filter kept (rglob_md tree).
Proof.
  unfold rglob_md. rewrite !filter_filter. apply filter_ext.
  intros f. apply andb_comm.
Qed.

Lemma build_entries_kept (ucd : UnicodeData) (config : config_state)
    (tree : list (path * node)) :
  build_entries ucd config (filter kept tree) = build_entries ucd config tree.
Proof.
  unfold build_entries.
  destruct (get_base_url config) as [base_url|]; [|reflexivity].
  cbn [bind]. rewrite rglob_md_kept.
  now rewrite sorted_by_path_kept, visit_all_kept.
Qed.




(** The escapes of [json.dump]: a quote, a line feed, a letter with an
    accent and a character beyond the basic plane. *)
Example json_escape_samples :
  json_escape 34%N = [92%N; 34%N]
  /\ json_escape 10%N = py "\n"
  /\ json_escape 233%N = py "\u00e9"
  /\ json_escape 128512%N = py "\ud83d\ude00".
Proof. repeat split. Qed.

(** C5: a path whose first component starts with an underscore leaves no
    trace in the index: with or without it in the content tree, whatever it
    holds, [main] builds the same list, ends the same way and writes the
    same file. *)
Theorem underscore_paths_not_indexed (ucd : UnicodeData) (config : config_state)
    (tree1 tree2 : list (path * node)) (f : path * node) :
  underscored (fst f) = true ->
  build_entries ucd config (tree1 ++ f :: tree2)
  = build_entries ucd config (tree1 ++ tree2)
  /\ forall (fault : option exn) (out : option str),
       fst (main ucd {| config_toml := config; content := tree1 ++ f :: tree2;
                        static_fault := fault; site_index_json := out |})
       = fst (main ucd {| config_toml := config; content := tree1 ++ tree2;
                          static_fault := fault; site_index_json := out |})
       /\ site_index_json
            (snd (main ucd {| config_toml := config;
                              content := tree1 ++ f :: tree2;
                              static_fault := fault;
                              site_index_json := out |}))
          = site_index_json
              (snd (main ucd {| config_toml := config;
                                content := tree1 ++ tree2;
                                static_fault := fault;
                                site_index_json := out |})).
Proof.
  intros Hu.
  assert (Hb : build_entries ucd config (tree1 ++ f :: tree2)
               = build_entries ucd config (tree1 ++ tree2)).
  { rewrite <- (build_entries_kept ucd config (tree1 ++ f :: tree2)),
      <- (build_entries_kept ucd config (tree1 ++ tree2)).
    rewrite !filter_app. cbn [filter]. unfold kept at 2. now rewrite Hu. }
  split; [exact Hb|].
  intros fault out. unfold main. cbn [config_toml content static_fault].
  rewrite Hb.
  now destruct (build_entries ucd config (tree1 ++ tree2)), fault.
Qed.

Lemma drafts_secret_not_indexed :
  underscored (fst ([py "_drafts"; py "secret.md"], File unclosed_text)) = true
  /\ build_entries ascii_only (Readable [])
       ([([py "a.md"], File hello_world_text)]
          ++ ([py "_drafts"; py "secret.md"], File unclosed_text) :: [])
     = build_entries ascii_only (Readable []) [([py "a.md"], File hello_world_text)].
Proof.
  split; [reflexivity|].
  exact (proj1 (@underscore_paths_not_indexed ascii_only (Readable [])
                  [([py "a.md"], File hello_world_text)] []
                  ([py "_drafts"; py "secret.md"], File unclosed_text)
                  eq_refl)).
Defined.

(** C6 (amended): the list [main] writes starts with the two fixed entries,
    built on the base URL, and goes on with one entry for each file of the
    tree that matches [*.md] and is not skipped, the files taken in the
    sorted order of [Path] objects: relative paths compared component by
    component, each component by code point.  (This is not the order of the
    paths as texts: [docs/guide.md] comes before [docs.md].) *)
Theorem index_order (ucd : UnicodeData) (config : config_state)
    (tree : list (path * node)) (entries : list entry) :
  build_entries ucd config tree = Ok entries ->
  exists (base_url : str) (files : list (path * node)) (found : list entry),
    get_base_url config = Ok base_url
    /\ entries
       = {| entry_title := py "Context Harness";
            entry_url := base_url ++ py "/";
            entry_description := py "Local-first context engine for AI tools" |}
         :: {| entry_title := py "Demo";
               entry_url := base_url ++ py "/demo/";
               entry_description :=
                 py "Search a pre-built knowledge base in your browser" |}
         :: found
    /\ Permutation files (filter indexed tree)
    /\ StronglySorted (not_after by_path) files
    /\ Forall2 (fun f e => entry_for ucd base_url f = Ok e) files found.
Proof.
  unfold build_entries.
  destruct (get_base_url config) as [base_url|]; [|discriminate].
  cbn [bind].
  destruct (visit_all ucd base_url (sorted by_path (rglob_md tree)))
    as [found|] eqn:Ev; [|discriminate].
  cbn [bind]. intros E. injection E as <-.
  exists base_url, (filter kept (sorted by_path (rglob_md tree))), found.
  split; [reflexivity|]. split; [reflexivity|]. split; [|split].
  - unfold rglob_md, indexed.
    rewrite (Permutation_filter kept (sorted_perm by_path _)).
    now rewrite filter_filter.
  - apply StronglySorted_filter. apply sorted_sorted; unfold by_path.
    + intros x y. apply path_lt_asym.
    + intros x y z. apply path_le_trans.
  - now apply visit_all_entries.
Qed.

Lemma b_then_a_indexed_a_then_b :
  build_entries ascii_only (Readable [])
    [([py "b.md"], File (py "B")); ([py "a.md"], File (py "A"))]
  = Ok (static_entries DEFAULT_BASE_URL
          ++ [ {| entry_title := py "A";
                  entry_url := DEFAULT_BASE_URL ++ py "/a/";
                  entry_description := [] |};
               {| entry_title := py "B";
                  entry_url := DEFAULT_BASE_URL ++ py "/b/";
                  entry_description := [] |} ])
  /\ exists (base_url : str) (files : list (path * node)) (found : list entry),
       get_base_url (Readable []) = Ok base_url
       /\ length found = 2
       /\ StronglySorted (not_after by_path) files
       /\ Forall2 (fun f e => entry_for ascii_only base_url f = Ok e) files found.
Proof.
  split; [reflexivity|].
  destruct (@index_order ascii_only (Readable [])
              [([py "b.md"], File (py "B")); ([py "a.md"], File (py "A"))]
              _ eq_refl)
    as [base_url [files [found [Hb [He [_ [Hs Hf]]]]]]].
  exists base_url, files, found.
  repeat split; try assumption.
  injection He as _ _ <-. reflexivity.
Defined.


Lemma Forall2_In_r (A B : Type) (R : A -> B -> Prop) (l : list A) (l' : list B)
    (y : B) :
  Forall2 R l l' -> In y l' -> exists x, In x l /\ R x y.
Proof.
  induction 1 as [|x y' l l' Hxy _ IH]; intros Hin; [destruct Hin|].
  destruct Hin as [<- | Hin].
  - exists x. split; [now left | exact Hxy].
  - destruct (IH Hin) as [x' [Hx' HR]]. exists x'. split; [now right | exact HR].
Qed.

Lemma entry_for_url (ucd : UnicodeData) (base_url : str) (f : path * node)
    (e : entry) :
  entry_for ucd base_url f = Ok e ->
  entry_url e = path_to_url (path_str (fst f)) base_url.
Proof.
  unfold entry_for.
  destruct (parse_front_matter ucd (fst f) (snd f)) as [[t d]|]; simpl;
    [|discriminate].
  intros E. injection E as <-. reflexivity.
Qed.

(** C10, as stated, fails: a file called [.md] at the content root is not
    skipped (its name starts with a dot), its stem is empty, and its entry
    gets the base URL followed by two slashes. *)
Lemma dot_md_gets_double_slash :
  underscored [py ".md"] = false
  /\ build_entries ascii_only (Readable []) [([py ".md"], File [])]
     = Ok (static_entries DEFAULT_BASE_URL
             ++ [ {| entry_title := py ".Md";
                     entry_url := DEFAULT_BASE_URL ++ py "//";
                     entry_description := [] |} ]).
Proof. split; reflexivity. Qed.

(** C10 (amended): [_index.md] at the content root is skipped by the
    underscore rule, like any file or directory of the root whose name starts
    with an underscore.  So, when the components of every indexed path are
    non-empty and free of slashes and backslashes, and no indexed file has a
    name that is empty once its [.md] is removed, no entry of the list has
    the base URL followed by two slashes as its URL. *)
Theorem no_double_slash_url (ucd : UnicodeData) (config : config_state)
    (tree : list (path * node)) (base_url : str) (entries : list entry) :
  build_entries ucd config tree = Ok entries ->
  get_base_url config = Ok base_url ->
  (forall f, In f tree -> indexed f = true ->
     forallb component_ok (fst f) = true
     /\ replace (py ".md") [] (name (fst f)) <> []) ->
  (forall (tree1 tree2 : list (path * node)) (n : node),
     underscored [py "_index.md"] = true
     /\ build_entries ucd config (tree1 ++ ([py "_index.md"], n) :: tree2)
        = build_entries ucd config (tree1 ++ tree2))
  /\ forall e, In e entries -> entry_url e <> base_url ++ py "//".
Proof.
  intros Hbuild Hbase Hok. split.
  - intros tree1 tree2 n. split; [reflexivity|].
    rewrite <- (build_entries_kept ucd config (tree1 ++ _ :: tree2)),
      <- (build_entries_kept ucd config (tree1 ++ tree2)).
    now rewrite !filter_app.
  - unfold build_entries in Hbuild. rewrite Hbase in Hbuild. cbn [bind] in Hbuild.
    destruct (visit_all ucd base_url (sorted by_path (rglob_md tree)))
      as [found|] eqn:Ev; [|discriminate].
    cbn [bind] in Hbuild. injection Hbuild as <-.
    intros e [<- | [<- | He]]; cbn [entry_url].
    + intros H. apply app_inv_head in H. discriminate.
    + intros H. apply app_inv_head in H. discriminate.
    + apply visit_all_entries in Ev.
      destruct (Forall2_In_r e Ev He) as [f [Hf Hentry]].
      apply filter_In in Hf as [Hf Hkept].
      apply (Permutation_in f (sorted_perm by_path (rglob_md tree))) in Hf.
      apply filter_In in Hf as [Hf Hmd].
      destruct (Hok f Hf) as [Hcomp Hstem].
      { unfold indexed. now rewrite Hmd. }
      rewrite (entry_for_url _ _ _ Hentry).
      apply path_to_url_not_double_slash; auto.
      * unfold kept in Hkept. now destruct (underscored (fst f)).
      * intros Hnil. apply Hstem. now rewrite Hnil.
Qed.

Lemma guide_has_no_double_slash_url :
  (build_entries ascii_only (Readable [])
     [([py "docs"; py "guide.md"], File hello_world_text);
      ([py "_index.md"], File unclosed_text)]
   = Ok (static_entries DEFAULT_BASE_URL
           ++ [ {| entry_title := py "Hello";
                   entry_url := DEFAULT_BASE_URL ++ py "/docs/guide/";
                   entry_description := py "World" |} ])
   /\ get_base_url (Readable []) = Ok DEFAULT_BASE_URL)
  /\ forall e,
       In e (static_entries DEFAULT_BASE_URL
               ++ [ {| entry_title := py "Hello";
                       entry_url := DEFAULT_BASE_URL ++ py "/docs/guide/";
                       entry_description := py "World" |} ]) ->
       entry_url e <> DEFAULT_BASE_URL ++ py "//".
Proof.
  split; [split; reflexivity|].
  refine (proj2 (@no_double_slash_url ascii_only (Readable [])
                   [([py "docs"; py "guide.md"], File hello_world_text);
                    ([py "_index.md"], File unclosed_text)]
                   DEFAULT_BASE_URL _ eq_refl eq_refl _)).
  intros f [<- | [<- | []]]; intros Hi; [|discriminate].
  split; [reflexivity | discriminate].
Defined.

(** ** What a match says about the text *)

Lemma re_star_inv (R : Type) (f : char -> bool) (k : str -> option R)
    (s : str) (r : R) :
  re_star f k s = Some r ->
  exists ws rest,
    s = ws ++ rest /\ Forall (fun c => f c = true) ws /\ k rest = Some r.
Proof.
  induction s as [|c s IH]; cbn [re_star]; intros H.
  - exists [], []. auto.
  - destruct (f c) eqn:Ec.
    + destruct (re_star f k s) as [r'|] eqn:Es.
      * injection H as <-.
        destruct (IH eq_refl) as [ws [rest [-> [Hws Hk]]]].
        exists (c :: ws), rest. auto.
      * exists [], (c :: s). auto.
    + exists [], (c :: s). auto.
Qed.

Lemma re_star_group_inv (R : Type) (f : char -> bool)
    (k : str -> str -> option R) (s : str) :
  forall (acc : str) (r : R),
  re_star_group f acc k s = Some r ->
  exists v rest,
    s = v ++ rest /\ Forall (fun c => f c = true) v
    /\ k (acc ++ v) rest = Some r.
Proof.
  induction s as [|c s IH]; cbn [re_star_group]; intros acc r H.
  - exists [], []. rewrite (app_nil_r acc). auto.
  - destruct (f c) eqn:Ec.
    + destruct (re_star_group f (acc ++ [c]) k s) as [r'|] eqn:Es.
      * injection H as <-.
        destruct (IH _ _ Es) as [v [rest [-> [Hv Hk]]]].
        exists (c :: v), rest. rewrite <- app_assoc in Hk. auto.
      * exists [], (c :: s). rewrite (app_nil_r acc). auto.
    + exists [], (c :: s). rewrite (app_nil_r acc). auto.
Qed.

Lemma re_set_inv (R : Type) (f : char -> bool) (k : str -> option R)
    (s : str) (r : R) :
  re_set f k s = Some r ->
  exists c rest, s = c :: rest /\ f c = true /\ k rest = Some r.
Proof.
  destruct s as [|c s]; cbn [re_set]; [discriminate|].
  destruct (f c) eqn:E; [|discriminate].
  intros H. exists c, s. auto.
Qed.

Lemma re_match_inv (key s g : str) :
  re_match key s = Some g ->
  exists (ws1 ws2 rest : str) (q1 q2 : char),
    s = key ++ ws1 ++ [61%N] ++ ws2 ++ [q1] ++ g ++ [q2] ++ rest
    /\ blank ws1 /\ blank ws2
    /\ isquote q1 = true /\ isquote q2 = true
    /\ g <> [] /\ unquoted g.
Proof.
  unfold re_match, re_lit.
  destruct (startswith s key) eqn:Ekey; [|discriminate].
  apply startswith_prefix in Ekey. intros H.
  apply re_star_inv in H as [ws1 [r1 [E1 [Hws1 H]]]].
  apply re_set_inv in H as [c [r2 [E2 [Hc H]]]].
  apply chr_eqb_eq in Hc. subst c.
  apply re_star_inv in H as [ws2 [r3 [E3 [Hws2 H]]]].
  apply re_set_inv in H as [q1 [r4 [E4 [Hq1 H]]]].
  unfold re_plus_group in H.
  destruct r4 as [|x r4]; [discriminate|].
  destruct (negb (isquote x)) eqn:Ex; [|discriminate].
  apply re_star_group_inv in H as [v [r5 [E5 [Hv H]]]].
  apply re_set_inv in H as [q2 [r6 [E6 [Hq2 H]]]].
  injection H as <-.
  exists ws1, ws2, r6, q1, q2.
  repeat split; try assumption.
  - rewrite Ekey, E1, E2, E3, E4, E5, E6. cbn [app]. reflexivity.
  - discriminate.
  - constructor; assumption.
Qed.

(** The pattern matches at the start of a text exactly when the text is the
    key, blanks, [=], blanks, a quote character, a non-empty value without
    quote characters, a quote character and anything after it; the group is
    that value.  The two quote characters need not be the same one. *)
Theorem re_match_iff (key s g : str) :
  re_match key s = Some g
  <-> exists (ws1 ws2 rest : str) (q1 q2 : char),
        s = key ++ ws1 ++ [61%N] ++ ws2 ++ [q1] ++ g ++ [q2] ++ rest
        /\ blank ws1 /\ blank ws2
        /\ isquote q1 = true /\ isquote q2 = true
        /\ g <> [] /\ unquoted g.
Proof.
  split; [apply re_match_inv|].
  intros [ws1 [ws2 [rest [q1 [q2 [-> [H1 [H2 [Hq1 [Hq2 [Hg Hu]]]]]]]]]]].
  now apply re_match_assignment.
Qed.

Lemma re_search_inv (key s g : str) :
  re_search key s = Some g ->
  exists before after, s = before ++ after /\ re_match key after = Some g.
Proof.
  induction s as [|c s IH]; cbn [re_search].
  - destruct (re_match key []) eqn:E; [|discriminate].
    intros H. injection H as <-. exists [], []. auto.
  - destruct (re_match key (c :: s)) eqn:E.
    + intros H. injection H as <-. exists [], (c :: s). auto.
    + intros H. destruct (IH H) as [before [after [-> Hm]]].
      exists (c :: before), after. auto.
Qed.

(** ** What the extractor returns *)

Lemma field_values_shape (key : str) (lines : list str) :
  Forall (fun g => g <> [] /\ unquoted g) (field_values key lines).
Proof.
  unfold field_values. induction lines as [|line lines IH]; cbn [flat_map].
  - constructor.
  - apply Forall_app. split; [|exact IH].
    destruct (startswith (strip line) key); [|constructor].
    destruct (re_search key line) as [g|] eqn:E; [|constructor].
    constructor; [|constructor].
    apply re_search_inv in E as [before [after [_ Hm]]].
    apply re_match_inv in Hm
      as [ws1 [ws2 [rest [q1 [q2 [_ [_ [_ [_ [_ [Hg Hu]]]]]]]]]]].
    now split.
Qed.

Lemma last_in (A : Type) (l : list A) (d : A) : l <> [] -> In (last l d) l.
Proof.
  induction l as [|x l IH]; [congruence|]. intros _.
  destruct l as [|y l]; [now left|].
  right. apply IH. discriminate.
Qed.

Lemma last_in_or_default (A : Type) (l : list A) (d : A) :
  last l d = d \/ In (last l d) l.
Proof.
  destruct l as [|x l]; [now left|]. right. apply last_in. discriminate.
Qed.

(** What the extractor returns is the default or a value taken from the
    front matter, and such a value is never empty and holds no quote
    character: an assignment of an empty text leaves the default. *)
Theorem front_matter_values_shape (ucd : UnicodeData) (p : path) (n : node)
    (title description : str) :
  parse_front_matter ucd p n = Ok (title, description) ->
  (title = default_title ucd p \/ (title <> [] /\ unquoted title))
  /\ (description = [] \/ (description <> [] /\ unquoted description)).
Proof.
  destruct n as [text| |e]; [|discriminate|discriminate].
  unfold parse_front_matter. cbn [read_text bind].
  destruct (startswith text (py "+++")).
  - destruct (index text (py "+++") 3) as [end_|]; [|discriminate].
    cbn [bind]. rewrite fold_front_matter_line.
    intros H. injection H as <- <-. split.
    + destruct (last_in_or_default
                  (field_values (py "title") (split 10%N (slice text 3 end_)))
                  (title ucd (replace (py "_") (py " ")
                                (replace (py "-") (py " ") (stem p)))))
        as [-> | Hin]; [now left|].
      right.
      exact (proj1 (Forall_forall _ _) (field_values_shape _ _) _ Hin).
    + destruct (last_in_or_default
                  (field_values (py "description")
                     (split 10%N (slice text 3 end_))) [])
        as [-> | Hin]; [now left|].
      right.
      exact (proj1 (Forall_forall _ _) (field_values_shape _ _) _ Hin).
  - intros H. injection H as <- <-. split; now left.
Qed.

(** ** The text after the front matter *)

Lemma startswith_length (s sub : str) :
  startswith s sub = true -> length sub <= length s.
Proof.
  revert s; induction sub as [|a sub IH]; intros s; cbn [startswith length];
    [lia|].
  destruct s as [|b s]; [discriminate|].
  intros H. apply andb_true_iff in H as [_ H]. apply IH in H. simpl. lia.
Qed.

Lemma startswith_app_long (s t sub : str) :
  length sub <= length s -> startswith (s ++ t) sub = startswith s sub.
Proof.
  revert s; induction sub as [|a sub IH]; intros s Hl; [reflexivity|].
  destruct s as [|b s]; [simpl in Hl; lia|].
  cbn [app startswith]. rewrite IH; [reflexivity|]. simpl in Hl. lia.
Qed.

Lemma find_some_length (s sub : str) (i : nat) :
  find s sub = Some i -> i + length sub <= length s.
Proof.
  revert i; induction s as [|c s IH]; intros i; cbn [find].
  - destruct (startswith [] sub) eqn:E; [|discriminate].
    intros H. injection H as <-. now apply startswith_length in E.
  - destruct (startswith (c :: s) sub) eqn:E.
    + intros H. injection H as <-. now apply startswith_length in E.
    + destruct (find s sub) as [j|]; [|discriminate].
      intros H. injection H as <-. specialize (IH j eq_refl). simpl. lia.
Qed.

Lemma find_app (s t sub : str) (i : nat) :
  find s sub = Some i -> find (s ++ t) sub = Some i.
Proof.
  revert i; induction s as [|c s IH]; intros i; cbn [find].
  - destruct (startswith [] sub) eqn:E; [|discriminate].
    intros H. injection H as <-.
    destruct sub; [|discriminate]. now destruct t.
  - destruct (startswith (c :: s) sub) eqn:E.
    + intros H. injection H as <-.
      pose proof (startswith_length _ _ E) as Hl.
      cbn [app find].
      change (c :: s ++ t) with ((c :: s) ++ t).
      now rewrite (startswith_app_long _ t _ Hl), E.
    + destruct (find s sub) as [j|] eqn:Ej; [|discriminate].
      intros H. injection H as <-.
      pose proof (find_some_length _ _ Ej) as Hl.
      cbn [app find].
      change (c :: s ++ t) with ((c :: s) ++ t).
      rewrite startswith_app_long by (simpl; lia).
      rewrite E. now rewrite (IH j eq_refl).
Qed.

(** The text after the closing delimiter plays no part: when the block holds
    no [+++] of its own, title and description are read from the block
    alone, whatever follows, also further delimiters and assignments. *)
Theorem parse_front_matter_ignores_body (ucd : UnicodeData) (p : path)
    (fm body : str) :
  find (fm ++ py "+++") (py "+++") = Some (length fm) ->
  parse_front_matter ucd p (File (py "+++" ++ fm ++ py "+++" ++ body))
  = Ok (last (field_values (py "title") (split 10%N fm)) (default_title ucd p),
        last (field_values (py "description") (split 10%N fm)) []).
Proof.
  intros Hfind. unfold parse_front_matter, index. cbn [read_text bind].
  rewrite startswith_app.
  change (skipn 3 (py "+++" ++ fm ++ py "+++" ++ body))
    with (fm ++ py "+++" ++ body).
  rewrite app_assoc, (find_app _ body _ Hfind). cbn [bind].
  unfold slice.
  change (skipn 3 (py "+++" ++ (fm ++ py "+++") ++ body))
    with ((fm ++ py "+++") ++ body).
  replace (3 + length fm - 3) with (length fm) by lia.
  rewrite <- !app_assoc, firstn_app, firstn_all, Nat.sub_diag.
  cbn [firstn]. rewrite app_nil_r.
  now rewrite fold_front_matter_line.
Qed.

(** ** Separators *)

Lemma replace_char_app (c : char) (new a b : str) :
  replace [c] new (a ++ b) = replace [c] new a ++ replace [c] new b.
Proof.
  unfold replace. induction a as [|x a IH]; [reflexivity|].
  cbn [app replace_from startswith length Nat.sub].
  destruct (chr_eqb c x); cbn [andb].
  - now rewrite IH, app_assoc.
  - now rewrite IH.
Qed.

Lemma replace_char_join (c : char) (new : str) (parts : list str) :
  Forall (fun w => ~ In c w) parts ->
  replace [c] new (join [c] parts) = join new parts.
Proof.
  induction 1 as [|x parts Hx _ IH]; [reflexivity|].
  destruct parts as [|y parts].
  - now apply replace_absent.
  - change (replace [c] new (x ++ [c] ++ join [c] (y :: parts))
            = x ++ new ++ join new (y :: parts)).
    etransitivity; [apply replace_char_app|].
    f_equal; [now apply replace_absent|].
    etransitivity; [apply replace_char_app|].
    f_equal; [|exact IH].
    unfold replace. cbn [replace_from startswith length Nat.sub].
    rewrite chr_eqb_refl. cbn [andb]. apply app_nil_r.
Qed.

Lemma replace_char_gone (c d : char) (s : str) :
  c <> d -> ~ In c (replace [c] [d] s).
Proof.
  intros Hcd. unfold replace. induction s as [|x s IH]; [intros []|].
  cbn [replace_from startswith length Nat.sub].
  destruct (chr_eqb c x) eqn:E; cbn [andb app].
  - intros [H | H]; [congruence | now apply IH].
  - apply chr_eqb_neq in E. intros [H | H]; [congruence | now apply IH].
Qed.

(** Components joined by backslashes give the URL of the same components
    joined by slashes. *)
Theorem path_to_url_separators (parts : list str) (base_url : str) :
  forallb sep_free parts = true ->
  path_to_url (join [92%N] parts) base_url
  = path_to_url (join (py "/") parts) base_url.
Proof.
  intros Hf. rewrite forallb_forall in Hf.
  assert (Hback : Forall (fun w => ~ In 92%N w) parts).
  { apply Forall_forall. intros w Hw. now apply (@sep_free_spec w (Hf w Hw)). }
  unfold path_to_url.
  rewrite replace_char_join by exact Hback.
  rewrite replace_absent; [reflexivity|].
  intros H. apply in_join in H as [H | [w [Hw Hc]]].
  - simpl in H. destruct H as [H | []]. discriminate.
  - rewrite Forall_forall in Hback. now apply (Hback w Hw).
Qed.

Lemma path_to_url_shape (rel_path base_url : str) :
  exists middle, path_to_url rel_path base_url
                 = (base_url ++ py "/") ++ middle ++ py "/".
Proof.
  unfold path_to_url.
  destruct (str_eqb _ _); eexists; rewrite <- app_assoc; reflexivity.
Qed.

(** ** The list as a whole *)

Lemma build_entries_inv (ucd : UnicodeData) (config : config_state)
    (tree : list (path * node)) (entries : list entry) :
  build_entries ucd config tree = Ok entries ->
  exists (base_url : str) (found : list entry),
    get_base_url config = Ok base_url
    /\ entries = static_entries base_url ++ found
    /\ Forall2 (fun f e => entry_for ucd base_url f = Ok e)
         (filter kept (sorted by_path (rglob_md tree))) found.
Proof.
  unfold build_entries.
  destruct (get_base_url config) as [base_url|]; [|discriminate].
  cbn [bind].
  destruct (visit_all ucd base_url (sorted by_path (rglob_md tree)))
    as [found|] eqn:Ev; [|discriminate].
  cbn [bind]. intros H. injection H as <-.
  exists base_url, found. repeat split. now apply visit_all_entries.
Qed.

Lemma visited_files_perm (tree : list (path * node)) :
  Permutation (filter kept (sorted by_path (rglob_md tree)))
    (filter indexed tree).
Proof.
  unfold rglob_md, indexed.
  rewrite (Permutation_filter kept (sorted_perm by_path _)).
  now rewrite filter_filter.
Qed.

Lemma Forall2_In_l (A B : Type) (R : A -> B -> Prop) (l : list A)
    (l' : list B) (x : A) :
  Forall2 R l l' -> In x l -> exists y, In y l' /\ R x y.
Proof.
  induction 1 as [|x' y l l' Hxy _ IH]; intros Hin; [destruct Hin|].
  destruct Hin as [<- | Hin].
  - exists y. split; [now left | exact Hxy].
  - destruct (IH Hin) as [y' [Hy' HR]]. exists y'. split; [now right | exact HR].
Qed.

Lemma Forall2_same_length (A B : Type) (R : A -> B -> Prop) (l : list A)
    (l' : list B) :
  Forall2 R l l' -> length l = length l'.
Proof. induction 1; simpl; congruence. Qed.

(** The number [main] prints is two more than the number of paths of the
    tree that match [*.md] and are not skipped. *)
Theorem main_reports_count (ucd : UnicodeData) (w : world) (n : nat) :
  fst (main ucd w) = Ok n ->
  n = 2 + length (filter indexed (content w)).
Proof.
  unfold main.
  destruct (build_entries ucd (config_toml w) (content w)) as [entries|] eqn:E;
    [|discriminate].
  destruct (static_fault w); [discriminate|].
  cbn [fst]. intros H. injection H as <-.
  apply build_entries_inv in E as [base_url [found [_ [-> HF]]]].
  rewrite length_app. cbn [static_entries length]. 
  rewrite <- (Forall2_same_length HF).
  now rewrite (Permutation_length (visited_files_perm (content w))).
Qed.

(** When [main] reaches the write, every path that matches [*.md] and whose
    first component does not start with an underscore has its entry in the
    list; an underscore further down the path does not hide a file. *)
Theorem indexed_file_has_entry (ucd : UnicodeData) (config : config_state)
    (tree : list (path * node)) (entries : list entry) (f : path * node) :
  build_entries ucd config tree = Ok entries ->
  In f tree ->
  endswith (name (fst f)) (py ".md") = true ->
  underscored (fst f) = false ->
  exists (base_url : str) (e : entry),
    get_base_url config = Ok base_url
    /\ In e entries
    /\ entry_for ucd base_url f = Ok e.
Proof.
  intros Hb Hin Hmd Hu.
  apply build_entries_inv in Hb as [base_url [found [Hbase [-> HF]]]].
  assert (Hf : In f (filter kept (sorted by_path (rglob_md tree)))).
  { apply (Permutation_in f (Permutation_sym (visited_files_perm tree))).
    apply filter_In. split; [exact Hin|].
    unfold indexed. now rewrite Hmd, Hu. }
  destruct (Forall2_In_l f HF Hf) as [e [He Hentry]].
  exists base_url, e. repeat split; auto.
  apply in_or_app. now right.
Qed.





(** Every URL of the list starts with the base URL and a slash and ends in a
    slash. *)
Theorem entry_urls_under_base (ucd : UnicodeData) (config : config_state)
    (tree : list (path * node)) (base_url : str) (entries : list entry) :
  build_entries ucd config tree = Ok entries ->
  get_base_url config = Ok base_url ->
  forall e, In e entries ->
    startswith (entry_url e) (base_url ++ py "/") = true
    /\ endswith (entry_url e) (py "/") = true.
Proof.
  intros Hb Hbase.
  apply build_entries_inv in Hb as [base' [found [Hbase' [-> HF]]]].
  rewrite Hbase in Hbase'. injection Hbase' as <-.
  intros e He. apply in_app_or in He as [He | He].
  - destruct He as [<- | [<- | []]]; cbn [entry_url]; split.
    + rewrite <- (app_nil_r (base_url ++ py "/")) at 1. apply startswith_app.
    + apply endswith_app.
    + change (base_url ++ py "/demo/") with (base_url ++ py "/" ++ py "demo/").
      rewrite app_assoc. apply startswith_app.
    + change (base_url ++ py "/demo/") with (base_url ++ py "/demo" ++ py "/").
      rewrite app_assoc. apply endswith_app.
  - destruct (Forall2_In_r e HF He) as [f [_ Hentry]].
    rewrite (entry_for_url _ _ _ Hentry).
    destruct (path_to_url_shape (path_str (fst f)) base_url) as [middle ->].
    split; [apply startswith_app|].
    rewrite !app_assoc. apply endswith_app.
Qed.

(** ** The order of enumeration *)

Lemma sorted_perm_unique (T : Type) (R : T -> T -> Prop) (l1 : list T) :
  forall l2 : list T,
  StronglySorted R l1 -> StronglySorted R l2 -> Permutation l1 l2 ->
  (forall x y, In x l1 -> In y l1 -> R x y -> R y x -> x = y) ->
  l1 = l2.
Proof.
  induction l1 as [|x l1 IH]; intros l2 H1 H2 Hp Hanti.
  - now apply Permutation_nil in Hp.
  - destruct l2 as [|y l2].
    + apply Permutation_sym, Permutation_nil in Hp. discriminate.
    + inversion H1 as [|? ? H1' Hx]; subst.
      inversion H2 as [|? ? H2' Hy]; subst.
      rewrite Forall_forall in Hx, Hy.
      assert (Exy : x = y).
      { assert (Hxin : In x (y :: l2))
          by (apply (Permutation_in x Hp); now left).
        assert (Hyin : In y (x :: l1))
          by (apply (Permutation_in y (Permutation_sym Hp)); now left).
        destruct Hxin as [-> | Hxin]; [reflexivity|].
        destruct Hyin as [-> | Hyin]; [reflexivity|].
        apply Hanti; [now left | now right | now apply Hx | now apply Hy]. }
      subst y. f_equal.
      apply IH; auto.
      * now apply Permutation_cons_inv in Hp.
      * intros a b Ha Hb. apply Hanti; now right.
Qed.

Lemma NoDup_map_eq (A B : Type) (f : A -> B) (l : list A) (x y : A) :
  NoDup (map f l) -> In x l -> In y l -> f x = f y -> x = y.
Proof.
  induction l as [|a l IH]; intros Hnd Hx Hy Hf; [destruct Hx|].
  cbn [map] in Hnd. inversion Hnd as [|? ? Hnot Hnd']; subst.
  destruct Hx as [-> | Hx], Hy as [-> | Hy]; auto.
  - exfalso. apply Hnot. rewrite Hf. now apply in_map.
  - exfalso. apply Hnot. rewrite <- Hf. now apply in_map.
Qed.

Lemma path_compare_both (a b : path) :
  path_lt a b = false -> path_lt b a = false -> a = b.
Proof.
  unfold path_lt. rewrite (path_compare_antisym a b).
  destruct (path_compare a b) eqn:E; simpl; try discriminate.
  intros _ _. now apply path_compare_eq.
Qed.

Lemma sorted_rglob_md_perm (tree tree' : list (path * node)) :
  NoDup (map fst tree) ->
  Permutation tree tree' ->
  sorted by_path (rglob_md tree) = sorted by_path (rglob_md tree').
Proof.
  intros Hnd Hp.
  apply (@sorted_perm_unique _ (not_after by_path)).
  - apply sorted_sorted; unfold by_path.
    + intros x y. apply path_lt_asym.
    + intros x y z. apply path_le_trans.
  - apply sorted_sorted; unfold by_path.
    + intros x y. apply path_lt_asym.
    + intros x y z. apply path_le_trans.
  - rewrite !sorted_perm. unfold rglob_md. now apply Permutation_filter.
  - intros x y Hx Hy Hxy Hyx.
    apply (Permutation_in x (sorted_perm by_path (rglob_md tree))) in Hx.
    apply (Permutation_in y (sorted_perm by_path (rglob_md tree))) in Hy.
    apply filter_In in Hx as [Hx _]. apply filter_In in Hy as [Hy _].
    apply (NoDup_map_eq fst tree x y Hnd Hx Hy).
    unfold not_after, by_path in *. now apply path_compare_both.
Qed.

(** The list does not depend on the order in which the directory is
    enumerated: two enumerations of the same paths give the same list, or
    the same exception. *)
Theorem index_independent_of_enumeration (ucd : UnicodeData)
    (config : config_state) (tree tree' : list (path * node)) :
  NoDup (map fst tree) ->
  Permutation tree tree' ->
  build_entries ucd config tree = build_entries ucd config tree'.
Proof.
  intros Hnd Hp. unfold build_entries.
  now rewrite (sorted_rglob_md_perm Hnd Hp).
Qed.

(** ** The configured URL *)

Lemma get_base_url_lines_shape (lines : list str) (at_end : result str)
    (url : str) :
  get_base_url_lines lines at_end = Ok url ->
  at_end = Ok url \/ (endswith url (py "/") = false /\ unquoted url).
Proof.
  induction lines as [|line lines IH]; cbn [get_base_url_lines];
    [now left|].
  destruct (re_match (py "base_url") line) as [g1|] eqn:E; [|exact IH].
  intros H. injection H as <-. right.
  split; [apply rstrip_slash_spec|].
  apply re_match_inv in E
    as [ws1 [ws2 [rest [q1 [q2 [_ [_ [_ [_ [_ [_ Hu]]]]]]]]]]].
  destruct (rstrip_slash_spec g1) as [_ [tail [Eg _]]].
  rewrite Eg in Hu. now apply Forall_app in Hu.
Qed.

(** ** The file written *)

Lemma ascii_text_app (a b : str) :
  ascii_text (a ++ b) = ascii_text a && ascii_text b.
Proof. apply forallb_app. Qed.

Lemma hex_digit_ascii (n : N) :
  (n < 16)%N -> ascii_text [hex_digit n] = true.
Proof.
  intros Hn. unfold ascii_text, hex_digit. cbn [forallb].
  rewrite andb_true_r. apply orb_true_iff. right.
  destruct (n <? 10)%N eqn:E.
  - apply N.ltb_lt in E. apply andb_true_iff. split; apply N.leb_le; lia.
  - apply N.ltb_ge in E. apply andb_true_iff. split; apply N.leb_le; lia.
Qed.

Lemma hex4_ascii (n : N) : ascii_text (hex4 n) = true.
Proof.
  unfold hex4.
  change (ascii_text ([hex_digit ((n / 4096) mod 16)]
                        ++ [hex_digit ((n / 256) mod 16)]
                        ++ [hex_digit ((n / 16) mod 16)]
                        ++ [hex_digit (n mod 16)]) = true).
  rewrite !ascii_text_app, !hex_digit_ascii;
    try reflexivity; apply N.mod_lt; discriminate.
Qed.

Lemma json_escape_ascii (c : char) : ascii_text (json_escape c) = true.
Proof.
  unfold json_escape.
  repeat match goal with
         | |- context [if (?a =? ?b)%N then _ else _] =>
             destruct (a =? b)%N; [reflexivity|]
         end.
  destruct ((32 <=? c) && (c <=? 126))%N eqn:E.
  - unfold ascii_text. cbn [forallb]. now rewrite E, orb_true_r.
  - destruct (c <? 65536)%N.
    + rewrite ascii_text_app, hex4_ascii. reflexivity.
    + cbv zeta. rewrite !ascii_text_app, !hex4_ascii. reflexivity.
Qed.

Lemma json_string_ascii (s : str) : ascii_text (json_string s) = true.
Proof.
  unfold json_string. rewrite !ascii_text_app. cbn [app].
  replace (ascii_text (flat_map json_escape s)) with true; [reflexivity|].
  symmetry. induction s as [|c s IH]; [reflexivity|].
  cbn [flat_map]. now rewrite ascii_text_app, json_escape_ascii, IH.
Qed.

Lemma join_ascii (sep : str) (l : list str) :
  ascii_text sep = true -> Forall (fun x => ascii_text x = true) l ->
  ascii_text (join sep l) = true.
Proof.
  intros Hs. induction 1 as [|x l Hx _ IH]; [reflexivity|].
  destruct l as [|y l]; [exact Hx|].
  rewrite join_cons2, !ascii_text_app, Hx, Hs, IH. reflexivity.
Qed.

Lemma json_entry_ascii (e : entry) : ascii_text (json_entry e) = true.
Proof.
  unfold json_entry, json_member.
  rewrite !ascii_text_app, !json_string_ascii. reflexivity.
Qed.

Lemma json_dumps_ascii (es : list entry) : ascii_text (json_dumps es) = true.
Proof.
  unfold json_dumps. destruct es as [|e es]; [reflexivity|].
  rewrite !ascii_text_app, join_ascii; [reflexivity | reflexivity |].
  apply Forall_forall. intros x Hx. apply in_map_iff in Hx as [e' [<- _]].
  apply json_entry_ascii.
Qed.

(** The base URL read from the configuration never ends in a slash, and it
    is the default or a text without quote characters. *)
Theorem base_url_value (config : config_state) (url : str) :
  get_base_url config = Ok url ->
  endswith url (py "/") = false
  /\ (url = DEFAULT_BASE_URL \/ unquoted url).
Proof.
  destruct config as [|text|lines e]; cbn [get_base_url]; [discriminate| |];
    intros H; apply get_base_url_lines_shape in H as [H | [H1 H2]];
    try discriminate; try (split; [exact H1 | now right]).
  injection H as <-. split; [reflexivity | now left].
Qed.

(** The index [main] writes holds line feeds and printable ASCII characters
    only, whatever the titles, descriptions and paths hold. *)
Theorem index_file_is_ascii (ucd : UnicodeData) (w : world) (n : nat) :
  fst (main ucd w) = Ok n ->
  exists out, site_index_json (snd (main ucd w)) = Some out
              /\ ascii_text out = true.
Proof.
  unfold main.
  destruct (build_entries ucd (config_toml w) (content w)) as [entries|];
    [|discriminate].
  destruct (static_fault w); [discriminate|].
  intros _. cbn [snd site_index_json]. eexists. split; [reflexivity|].
  apply json_dumps_ascii.
Qed.

(** ** Two files, one URL *)

(** The section index [d/_index.md] and the page [d.md] beside the
    directory [d] get the same URL: URLs of the list need not be distinct. *)
Theorem section_and_page_share_url (base_url : str) (dirs : list str)
    (d : str) :
  forallb sep_free (dirs ++ [d]) = true ->
  find (d ++ py ".md") (py ".md") = Some (length d) ->
  d <> py "_index" ->
  path_to_url (join (py "/") (dirs ++ [d; py "_index.md"])) base_url
  = path_to_url (join (py "/") (dirs ++ [d ++ py ".md"])) base_url.
Proof.
  intros Hf Hfind Hd.
  assert (Hf' := Hf).
  rewrite forallb_app in Hf'. apply andb_true_iff in Hf' as [Hdirs Hsd].
  cbn [forallb] in Hsd. rewrite andb_true_r in Hsd.
  rewrite !path_to_url_parts.
  - change (dirs ++ [d; py "_index.md"]) with (dirs ++ [d] ++ [py "_index.md"]).
    rewrite app_assoc, !last_last, !removelast_last.
    rewrite (replace_md_suffix _ Hfind).
    destruct (str_eqb (d ++ py ".md") (py "_index.md")) eqn:E; [|reflexivity].
    apply str_eqb_eq in E.
    apply (@app_inv_tail char (py ".md") d (py "_index")) in E.
    contradiction.
  - now destruct dirs.
  - rewrite forallb_app, Hdirs. cbn [forallb]. rewrite andb_true_r.
    unfold sep_free in *. rewrite forallb_app, Hsd. reflexivity.
  - now destruct dirs.
  - rewrite forallb_app, Hdirs. cbn [forallb]. now rewrite Hsd.
Qed.

(** ** Titles of ASCII names *)

Lemma title_from_ascii (ucd1 ucd2 : UnicodeData) (s : str) :
  ascii_str s = true ->
  forall (whole1 whole2 : str) (i1 i2 : nat) (b : bool),
  title_from ucd1 whole1 i1 b s = title_from ucd2 whole2 i2 b s.
Proof.
  induction s as [|c s IH]; intros Ha whole1 whole2 i1 i2 b; [reflexivity|].
  cbn [ascii_str forallb] in Ha. apply andb_true_iff in Ha as [Hc Ha].
  cbn [title_from]. unfold tolower, totitle, iscased. rewrite Hc.
  f_equal. now apply IH.
Qed.

Lemma title_from_ascii_spec (s : str) :
  ascii_str s = true ->
  forall (b : bool) (e : char),
  length (title_from ascii_only [] 0 b s) = length s
  /\ (isupper_ascii e = false -> islower_ascii e = false ->
      In e (title_from ascii_only [] 0 b s) -> In e s).
Proof.
  induction s as [|c s IH]; intros Ha b e; [split; [reflexivity | auto]|].
  cbn [ascii_str forallb] in Ha. apply andb_true_iff in Ha as [Hc Ha].
  cbn [title_from]. unfold tolower, totitle, iscased. rewrite Hc.
  rewrite (title_from_ascii ascii_only ascii_only s Ha [] [] 1 0).
  destruct (IH Ha (isupper_ascii c || islower_ascii c) e) as [Hlen Hin].
  split.
  - destruct b; cbn [app length]; now rewrite Hlen.
  - intros Hu Hl H.
    assert (Hhead : forall x : char,
              x = (if isupper_ascii c then (c + 32)%N else c)
              \/ x = (if islower_ascii c then (c - 32)%N else c) ->
              x = e -> c = e).
    { intros x Hx <-. unfold isupper_ascii, islower_ascii in *.
      destruct Hx as [-> | ->].
      - destruct ((65 <=? c) && (c <=? 90))%N eqn:E; [|reflexivity].
        exfalso. apply andb_true_iff in E as [E1 E2].
        apply N.leb_le in E1, E2.
        apply andb_false_iff in Hl as [Hl | Hl]; apply N.leb_gt in Hl; lia.
      - destruct ((97 <=? c) && (c <=? 122))%N eqn:E; [|reflexivity].
        exfalso. apply andb_true_iff in E as [E1 E2].
        apply N.leb_le in E1, E2.
        apply andb_false_iff in Hu as [Hu | Hu]; apply N.leb_gt in Hu; lia. }
    destruct b; cbn [app] in H; destruct H as [H | H].
    + left. apply (Hhead _ (or_introl eq_refl) H).
    + right. now apply Hin.
    + left. apply (Hhead _ (or_intror eq_refl) H).
    + right. now apply Hin.
Qed.

Lemma replace_char_spec (c d : char) (s : str) :
  length (replace [c] [d] s) = length s
  /\ (ascii_str s = true -> (d <? 128)%N = true ->
      ascii_str (replace [c] [d] s) = true)
  /\ (forall e, e <> d -> In e (replace [c] [d] s) -> In e s).
Proof.
  unfold replace. induction s as [|x s [IHl [IHa IHi]]].
  - repeat split; auto.
  - cbn [replace_from startswith length Nat.sub].
    destruct (chr_eqb c x) eqn:E; cbn [andb app length]; repeat split.
    + now rewrite IHl.
    + intros Ha Hd. cbn [ascii_str forallb] in *.
      apply andb_true_iff in Ha as [_ Ha]. rewrite Hd. now apply IHa.
    + intros e He [H | H]; [congruence | right; now apply IHi].
    + now rewrite IHl.
    + intros Ha Hd. cbn [ascii_str forallb] in *.
      apply andb_true_iff in Ha as [Hx Ha]. rewrite Hx. now apply IHa.
    + intros e He [H | H]; [now left | right; now apply IHi].
Qed.

(** For a stem of ASCII characters the derived title does not depend on the
    Unicode tables, is as long as the stem and holds no hyphen and no
    underscore. *)
Theorem default_title_of_ascii_stem (ucd : UnicodeData) (p : path) :
  ascii_str (stem p) = true ->
  default_title ucd p = default_title ascii_only p
  /\ length (default_title ucd p) = length (stem p)
  /\ ~ In 45%N (default_title ucd p)
  /\ ~ In 95%N (default_title ucd p).
Proof.
  intros Ha. unfold default_title, title.
  pose proof (replace_char_spec 45%N 32%N (stem p)) as [L1 [A1 I1]].
  pose proof (replace_char_spec 95%N 32%N (replace (py "-") (py " ") (stem p)))
    as [L2 [A2 I2]].
  change [45%N] with (py "-") in *. change [95%N] with (py "_") in *.
  change [32%N] with (py " ") in *.
  assert (Hascii : ascii_str (replace (py "_") (py " ")
                                (replace (py "-") (py " ") (stem p))) = true)
    by (apply A2; [now apply A1 | reflexivity]).
  set (t := replace (py "_") (py " ") (replace (py "-") (py " ") (stem p)))
    in *.
  rewrite (title_from_ascii ucd ascii_only t Hascii t [] 0 0 false).
  rewrite (title_from_ascii ascii_only ascii_only t Hascii t [] 0 0 false).
  destruct (title_from_ascii_spec _ Hascii false 45%N) as [Hlen H45].
  destruct (title_from_ascii_spec _ Hascii false 95%N) as [_ H95].
  repeat split.
  - now rewrite Hlen, L2, L1.
  - intros H. apply H45 in H; try reflexivity.
    apply I2 in H; [|discriminate].
    now apply (@replace_char_gone 45%N 32%N (stem p)) in H.
  - intros H. apply H95 in H; try reflexivity.
    now apply (@replace_char_gone 95%N 32%N
                 (replace (py "-") (py " ") (stem p))) in H.
Qed.

(** ** Sample runs of the properties above *)

Lemma hello_world_values_shape :
  parse_front_matter ascii_only [py "a.md"] (File hello_world_text)
  = Ok (py "Hello", py "World")
  /\ (py "Hello" = default_title ascii_only [py "a.md"]
      \/ (py "Hello" <> [] /\ unquoted (py "Hello")))
  /\ (py "World" = [] \/ (py "World" <> [] /\ unquoted (py "World"))).
Proof.
  split; [reflexivity|].
  exact (@front_matter_values_shape ascii_only [py "a.md"]
           (File hello_world_text) (py "Hello") (py "World") eq_refl).
Defined.

Lemma hello_world_with_any_body :
  find (hello_world_block ++ py "+++") (py "+++")
  = Some (length hello_world_block)
  /\ parse_front_matter ascii_only [py "a.md"]
       (File (py "+++" ++ hello_world_block ++ py "+++"
                ++ py " and +++ again, title = 'No'"))
     = Ok (py "Hello", py "World").
Proof.
  split; [reflexivity|].
  rewrite (@parse_front_matter_ignores_body ascii_only [py "a.md"]
             hello_world_block (py " and +++ again, title = 'No'") eq_refl).
  reflexivity.
Defined.

Lemma docs_guide_with_backslash :
  forallb sep_free [py "docs"; py "guide.md"] = true
  /\ path_to_url (py "docs\guide.md") (py "https://x.test")
     = path_to_url (py "docs/guide.md") (py "https://x.test").
Proof.
  split; [reflexivity|].
  exact (@path_to_url_separators [py "docs"; py "guide.md"]
           (py "https://x.test") eq_refl).
Defined.

Lemma fresh_world_reports_three :
  fst (main ascii_only fresh_world) = Ok 3
  /\ 3 = 2 + length (filter indexed (content fresh_world)).
Proof.
  split; [reflexivity|].
  exact (@main_reports_count ascii_only fresh_world 3 eq_refl).
Defined.

Lemma nested_underscore_file_has_entry :
  (build_entries ascii_only (Readable []) nested_tree = Ok nested_entries
   /\ In ([py "docs"; py "_private"; py "x.md"], File (py "notes")) nested_tree
   /\ endswith (name [py "docs"; py "_private"; py "x.md"]) (py ".md") = true
   /\ underscored [py "docs"; py "_private"; py "x.md"] = false)
  /\ exists (base_url : str) (e : entry),
       get_base_url (Readable []) = Ok base_url
       /\ In e nested_entries
       /\ entry_for ascii_only base_url
            ([py "docs"; py "_private"; py "x.md"], File (py "notes"))
          = Ok e.
Proof.
  assert (Hin : In ([py "docs"; py "_private"; py "x.md"], File (py "notes"))
                  nested_tree) by (now left).
  split; [repeat split; [exact Hin]|].
  exact (@indexed_file_has_entry ascii_only (Readable []) nested_tree
           nested_entries _ eq_refl Hin eq_refl eq_refl).
Defined.

Lemma nested_entries_under_base :
  (build_entries ascii_only (Readable []) nested_tree = Ok nested_entries
   /\ get_base_url (Readable []) = Ok DEFAULT_BASE_URL)
  /\ forall e, In e nested_entries ->
       startswith (entry_url e) (DEFAULT_BASE_URL ++ py "/") = true
       /\ endswith (entry_url e) (py "/") = true.
Proof.
  split; [split; reflexivity|].
  exact (@entry_urls_under_base ascii_only (Readable []) nested_tree
           DEFAULT_BASE_URL nested_entries eq_refl eq_refl).
Defined.

Lemma a_b_in_either_order :
  (NoDup (map fst [([py "b.md"], File (py "B")); ([py "a.md"], File (py "A"))])
   /\ Permutation
        [([py "b.md"], File (py "B")); ([py "a.md"], File (py "A"))]
        [([py "a.md"], File (py "A")); ([py "b.md"], File (py "B"))])
  /\ build_entries ascii_only (Readable [])
       [([py "b.md"], File (py "B")); ([py "a.md"], File (py "A"))]
     = build_entries ascii_only (Readable [])
         [([py "a.md"], File (py "A")); ([py "b.md"], File (py "B"))].
Proof.
  assert (Hnd : NoDup (map fst [([py "b.md"], File (py "B"));
                                ([py "a.md"], File (py "A"))])).
  { constructor; [|constructor; [intros [] | constructor]].
    intros [H | []]. discriminate. }
  assert (Hp : Permutation
                 [([py "b.md"], File (py "B")); ([py "a.md"], File (py "A"))]
                 [([py "a.md"], File (py "A")); ([py "b.md"], File (py "B"))])
    by apply perm_swap.
  split; [split; assumption|].
  exact (@index_independent_of_enumeration ascii_only (Readable []) _ _ Hnd Hp).
Defined.

Lemma two_urls_config_value :
  get_base_url (Readable two_urls_config) = Ok (py "https://x.test")
  /\ endswith (py "https://x.test") (py "/") = false
  /\ (py "https://x.test" = DEFAULT_BASE_URL \/ unquoted (py "https://x.test")).
Proof.
  split; [reflexivity|].
  exact (@base_url_value (Readable two_urls_config) (py "https://x.test") eq_refl).
Defined.

Lemma cafe_index_is_ascii :
  fst (main ascii_only cafe_world) = Ok 3
  /\ exists out, site_index_json (snd (main ascii_only cafe_world)) = Some out
                 /\ ascii_text out = true.
Proof.
  split; [reflexivity|].
  exact (@index_file_is_ascii ascii_only cafe_world 3 eq_refl).
Defined.

Lemma docs_index_and_docs_page_share_url :
  (forallb sep_free ([] ++ [py "docs"]) = true
   /\ find (py "docs" ++ py ".md") (py ".md") = Some (length (py "docs"))
   /\ py "docs" <> py "_index")
  /\ path_to_url (py "docs/_index.md") (py "https://x.test")
     = path_to_url (py "docs.md") (py "https://x.test").
Proof.
  assert (Hd : py "docs" <> py "_index") by discriminate.
  split; [repeat split; exact Hd|].
  exact (@section_and_page_share_url (py "https://x.test") [] (py "docs")
           eq_refl eq_refl Hd).
Defined.

Lemma my_page_name_title_shape :
  ascii_str (stem [py "my-page_name.md"]) = true
  /\ default_title dropping_tables [py "my-page_name.md"]
     = default_title ascii_only [py "my-page_name.md"]
  /\ length (default_title dropping_tables [py "my-page_name.md"])
     = length (stem [py "my-page_name.md"])
  /\ ~ In 45%N (default_title dropping_tables [py "my-page_name.md"])
  /\ ~ In 95%N (default_title dropping_tables [py "my-page_name.md"]).
Proof.
  split; [reflexivity|].
  exact (@default_title_of_ascii_stem dropping_tables [py "my-page_name.md"]
           eq_refl).
Defined.

(** The two stems of a file agree where its name holds [.md] only as a
    suffix after a non-empty text: the one the title is derived from
    ([path.stem]) and the one the URL ends with (the name without its
    [.md]). *)
Theorem title_and_url_stems_agree (dirs : list str) (d : str) :
  d <> [] ->
  find (d ++ py ".md") (py ".md") = Some (length d) ->
  stem (dirs ++ [d ++ py ".md"])
  = replace (py ".md") [] (name (dirs ++ [d ++ py ".md"])).
Proof.
  intros Hd Hfind. rewrite (stem_md dirs Hd).
  unfold name. rewrite last_last. symmetry. now apply replace_md_suffix.
Qed.

Lemma guide_stems_agree :
  (py "guide" <> []
   /\ find (py "guide" ++ py ".md") (py ".md") = Some (length (py "guide")))
  /\ stem [py "docs"; py "guide.md"]
     = replace (py ".md") [] (name [py "docs"; py "guide.md"]).
Proof.
  assert (Hd : py "guide" <> []) by discriminate.
  split; [split; [exact Hd | reflexivity]|].
  exact (@title_and_url_stems_agree [py "docs"] (py "guide") Hd eq_refl).
Defined.

(** ** The configuration reader, line by line *)

(** The lines of a text: put end to end they give the text, none is empty,
    a newline is the last character of its line, and every line but the last
    ends in one. *)
Lemma readlines_concat (s : str) : concat (readlines s) = s.
Proof.
  induction s as [|c s IH]; [reflexivity|]. cbn [readlines].
  destruct (chr_eqb c 10%N).
  - cbn [concat app]. now rewrite IH.
  - destruct (readlines s) as [|l ls]; cbn [concat app] in *.
    + now rewrite <- IH.
    + now rewrite IH.
Qed.

Lemma readlines_lines (s : str) :
  Forall (fun l => l <> [] /\ ~ In 10%N (removelast l)) (readlines s).
Proof.
  induction s as [|c s IH]; [constructor|]. cbn [readlines].
  destruct (chr_eqb c 10%N) eqn:E.
  - constructor; [|exact IH]. split; [discriminate | intros []].
  - apply chr_eqb_neq in E.
    destruct (readlines s) as [|l ls].
    + constructor; [|constructor]. split; [discriminate | intros []].
    + destruct (Forall_inv IH) as [Hl Hn]. apply Forall_inv_tail in IH.
      constructor; [|exact IH]. split; [discriminate|].
      destruct l as [|x l]; [now elim Hl|].
      change (removelast (c :: x :: l)) with (c :: removelast (x :: l)).
      intros [H | H]; [congruence | now apply Hn].
Qed.

Lemma readlines_newlines (s : str) (before after : list str) (l : str) :
  readlines s = before ++ l :: after -> after <> [] -> last l 0%N = 10%N.
Proof.
  revert before l after.
  induction s as [|c s IH]; intros before l after; cbn [readlines].
  - now destruct before.
  - destruct (chr_eqb c 10%N) eqn:E.
    + apply chr_eqb_eq in E. subst c.
      destruct before as [|b before]; cbn [app]; intros H Ha.
      * now injection H as <- _.
      * injection H as _ H. now apply (IH before l after).
    + destruct (readlines s) as [|l0 ls] eqn:Er.
      * destruct before as [|b before]; cbn [app]; intros H Ha.
        -- injection H as _ H. now elim Ha.
        -- injection H as _ H. now destruct before.
      * destruct before as [|b before]; cbn [app]; intros H Ha.
        -- injection H as <- <-.
           specialize (IH [] l0 ls eq_refl Ha).
           destruct l0 as [|x l0]; [|exact IH].
           pose proof (readlines_lines s) as Hl. rewrite Er in Hl.
           destruct (Forall_inv Hl) as [Hne _]. now elim Hne.
        -- injection H as _ H. subst ls.
           now apply (IH (l0 :: before) l after).
Qed.

Lemma starts_assignment_match (key s v : str) :
  starts_assignment key s v -> re_match key s = Some v.
Proof.
  intros [ws1 [ws2 [rest [q1 [q2 [-> [H1 [H2 [Hq1 [Hq2 [Hv Hu]]]]]]]]]]].
  now apply re_match_assignment.
Qed.

Lemma no_base_url_none (line : str) :
  no_base_url line -> re_match (py "base_url") line = None.
Proof.
  intros H. destruct (re_match (py "base_url") line) as [g1|] eqn:E;
    [|reflexivity].
  exfalso. apply (H g1). now apply re_match_inv.
Qed.

Lemma no_base_url_lines (lines : list str) :
  Forall no_base_url lines ->
  Forall (fun line => re_match (py "base_url") line = None) lines.
Proof.
  intros H. eapply Forall_impl; [|exact H]. apply no_base_url_none.
Qed.

Lemma not_endswith (s p : str) :
  endswith s p = false -> forall u : str, s <> u ++ p.
Proof. intros H u ->. now rewrite endswith_app in H. Qed.

(** C2 (amended): the reader raises [FileNotFoundError] when the file is
    missing, and the error of [open] or of the decoder when the reading
    fails before a line that starts with an assignment of [base_url] has
    been read.  When the file is read to its end without such a line it
    returns the default URL.  In every state, the first line that starts
    with an assignment of [base_url] decides: the reader returns the value
    between the quote characters without its trailing slashes (what is cut
    off is slashes only and what is left does not end in one).  The lines of
    a file that is read to its end are the lines of its text. *)
Theorem get_base_url_by_state (config : config_state) :
  (Forall no_base_url (lines_read config) ->
   get_base_url config
   = match config with
     | Missing => Raise FileNotFoundError
     | Readable _ => Ok DEFAULT_BASE_URL
     | Faulty _ e => Raise e
     end)
  /\ (forall (before after : list str) (line v : str),
        lines_read config = before ++ line :: after ->
        Forall no_base_url before ->
        starts_assignment (py "base_url") line v ->
        exists url slashes : str,
          get_base_url config = Ok url
          /\ v = url ++ slashes
          /\ Forall (fun c => c = 47%N) slashes
          /\ forall u : str, url <> u ++ py "/")
  /\ (forall text : str,
        config = Readable text ->
        concat (lines_read config) = text
        /\ Forall (fun l => l <> [] /\ ~ In 10%N (removelast l))
             (lines_read config)
        /\ forall (before after : list str) (l : str),
             lines_read config = before ++ l :: after ->
             after <> [] -> last l 0%N = 10%N).
Proof.
  split; [|split].
  - intros H. apply no_base_url_lines in H.
    destruct config as [|text|lines e]; cbn [get_base_url lines_read] in *;
      [reflexivity | |]; now apply get_base_url_lines_none.
  - intros before after line v Hlines Hbefore Hmatch.
    apply no_base_url_lines in Hbefore.
    apply starts_assignment_match in Hmatch.
    destruct (rstrip_slash_spec v) as [Hend [slashes [Hv Hs]]].
    exists (rstrip_chars (py "/") v), slashes.
    split; [|split; [exact Hv | split; [exact Hs | now apply not_endswith]]].
    destruct config as [|text|lines e]; cbn [get_base_url lines_read] in *.
    + now destruct before.
    + rewrite Hlines. now apply get_base_url_lines_first.
    + rewrite Hlines. now apply get_base_url_lines_first.
  - intros text ->. cbn [lines_read].
    split; [apply readlines_concat|]. split; [apply readlines_lines|].
    intros before after l. apply readlines_newlines.
Qed.

Lemma get_base_url_first_of_two :
  (lines_read (Readable two_urls_config)
   = [py "# site" ++ [10%N]]
       ++ (py "base_url = " ++ [34%N] ++ py "https://x.test//" ++ [34%N] ++ [10%N])
       :: [py "base_url = 'https://other.test'" ++ [10%N]]
   /\ Forall no_base_url [py "# site" ++ [10%N]]
   /\ starts_assignment (py "base_url")
        (py "base_url = " ++ [34%N] ++ py "https://x.test//" ++ [34%N] ++ [10%N])
        (py "https://x.test//"))
  /\ get_base_url (Readable two_urls_config) = Ok (py "https://x.test").
Proof.
  assert (Hbefore : Forall no_base_url [py "# site" ++ [10%N]]).
  { constructor; [|constructor]. intros v Hv.
    apply starts_assignment_match in Hv. discriminate. }
  assert (Hline : starts_assignment (py "base_url")
                    (py "base_url = " ++ [34%N] ++ py "https://x.test//"
                       ++ [34%N] ++ [10%N])
                    (py "https://x.test//")).
  { exists (py " "), (py " "), [10%N], 34%N, 34%N.
    repeat split; try reflexivity; try discriminate; repeat constructor. }
  split; [split; [reflexivity | split; [exact Hbefore | exact Hline]]|].
  destruct (proj1 (proj2 (get_base_url_by_state (Readable two_urls_config)))
              [py "# site" ++ [10%N]]
              [py "base_url = 'https://other.test'" ++ [10%N]]
              (py "base_url = " ++ [34%N] ++ py "https://x.test//" ++ [34%N]
                 ++ [10%N])
              (py "https://x.test//") eq_refl Hbefore Hline)
    as [url [slashes [Hurl _]]].
  rewrite Hurl. f_equal.
  assert (E : get_base_url (Readable two_urls_config) = Ok (py "https://x.test"))
    by reflexivity.
  rewrite E in Hurl. now injection Hurl.
Defined.

(** ** Title case, character by character *)






(** Title case as [str.title] applies it: a letter after a digit or an
    apostrophe starts a word too, and a dot does not end the stem. *)
Example default_title_word_starts :
  default_title ascii_only [py "it's-3d_NOW.md"] = py "It'S 3D Now"
  /\ default_title ascii_only [py "site.v2.md"] = py "Site.V2".
Proof. split; reflexivity. Qed.

(** ** The first closing delimiter *)

Lemma find_some_spec (s sub : str) :
  forall i : nat,
  find s sub = Some i ->
  (exists a b : str, s = a ++ sub ++ b /\ length a = i)
  /\ forall a b : str, s = a ++ sub ++ b -> i <= length a.
Proof.
  induction s as [|c s IH]; intros i; cbn [find].
  - destruct (startswith [] sub) eqn:E; [|discriminate].
    intros H. injection H as <-.
    split; [|intros; lia].
    apply startswith_prefix in E. exists [], (skipn (length sub) []).
    split; [exact E | reflexivity].
  - destruct (startswith (c :: s) sub) eqn:E.
    + intros H. injection H as <-.
      split; [|intros; lia].
      apply startswith_prefix in E. exists [], (skipn (length sub) (c :: s)).
      split; [exact E | reflexivity].
    + destruct (find s sub) as [j|] eqn:Ej; [|discriminate].
      intros H. injection H as <-.
      destruct (IH j eq_refl) as [[a [b [Es Ha]]] Hmin].
      split.
      * exists (c :: a), b. split; [simpl; now rewrite <- Es | simpl; lia].
      * intros [|c' a'] b' Hs.
        -- cbn [app] in Hs. rewrite Hs, startswith_app in E. discriminate.
        -- injection Hs as _ Hs. specialize (Hmin a' b' Hs). simpl. lia.
Qed.

Lemma find_none_spec (s sub : str) : find s sub = None -> ~ occurs sub s.
Proof.
  induction s as [|c s IH]; cbn [find].
  - destruct (startswith [] sub) eqn:E; [discriminate|].
    intros _ [a [b H]]. symmetry in H.
    apply app_eq_nil in H as [_ H]. apply app_eq_nil in H as [H _].
    subst sub. discriminate.
  - destruct (startswith (c :: s) sub) eqn:E; [discriminate|].
    destruct (find s sub) as [j|] eqn:Ej; [discriminate|].
    intros _ [[|c' a] [b H]].
    + cbn [app] in H. rewrite H, startswith_app in E. discriminate.
    + injection H as _ H. apply IH; [reflexivity|]. now exists a, b.
Qed.

Lemma find_least (s sub a b : str) :
  s = a ++ sub ++ b ->
  (forall a' b' : str, s = a' ++ sub ++ b' -> length a <= length a') ->
  find s sub = Some (length a).
Proof.
  intros Hs Hmin.
  destruct (find s sub) as [i|] eqn:E.
  - destruct (@find_some_spec _ _ _ E) as [[a' [b' [Hs' Ha']]] Hi].
    specialize (Hmin a' b' Hs'). specialize (Hi a b Hs). f_equal. lia.
  - exfalso. apply (@find_none_spec _ _ E). now exists a, b.
Qed.

(** ** Assignments in the block *)

Lemma strip_key_line (key line : str) :
  startswith (strip line) key = true -> key_line key line.
Proof.
  unfold strip, lstrip, rstrip. intros H.
  destruct (dropwhile_split isspace line) as [pre [El Hpre]].
  destruct (dropwhile_split isspace (rev (dropwhile isspace line)))
    as [pre' [Er _]].
  apply startswith_prefix in H.
  set (L := dropwhile isspace line) in *.
  set (R := rev (dropwhile isspace (rev L))) in *.
  assert (EL : L = R ++ rev pre').
  { unfold R. rewrite <- rev_app_distr, <- Er. symmetry. apply rev_involutive. }
  exists pre, (skipn (length key) R ++ rev pre').
  split; [exact Hpre|].
  etransitivity; [exact El|]. f_equal.
  etransitivity; [exact EL|]. rewrite app_assoc. f_equal. exact H.
Qed.

Lemma field_values_app (key : str) (l1 l2 : list str) :
  field_values key (l1 ++ l2) = field_values key l1 ++ field_values key l2.
Proof. unfold field_values. apply flat_map_app. Qed.

Lemma field_values_none (key : str) (lines : list str) :
  Forall (fun l => ~ reassigns key l) lines -> field_values key lines = [].
Proof.
  induction 1 as [|l lines Hl _ IH]; [reflexivity|].
  unfold field_values in *. cbn [flat_map]. rewrite IH, app_nil_r.
  destruct (startswith (strip l) key) eqn:E; [|reflexivity].
  destruct (re_search key l) as [g|] eqn:Es; [|reflexivity].
  exfalso. apply Hl. split; [now apply strip_key_line|].
  apply re_search_inv in Es as [before [s [-> Hm]]].
  exists before, s, g. split; [reflexivity|]. now apply re_match_inv.
Qed.

Lemma field_values_assigns (key' line v : str) (k0 kl : char) (key'' : str) :
  isspace k0 = false ->
  rev (k0 :: key') = kl :: key'' -> isspace kl = false ->
  assigns (k0 :: key') line v ->
  field_values (k0 :: key') [line] = [v].
Proof.
  intros Hk0 Hrev Hkl
    [indent [ws1 [ws2 [rest [q1 [q2 [-> [Hi [H1 [H2 [Hq1 [Hq2 [Hv Hu]]]]]]]]]]]]].
  unfold field_values. cbn [flat_map].
  rewrite (@strip_keeps_key indent (k0 :: key') _ k0 kl key' key'')
    by auto.
  rewrite (@re_search_assignment key' indent ws1 ws2 v rest k0 q1 q2) by auto.
  reflexivity.
Qed.

Lemma last_assignment (key' line v d : str) (k0 kl : char) (key'' : str)
    (before after : list str) :
  isspace k0 = false ->
  rev (k0 :: key') = kl :: key'' -> isspace kl = false ->
  assigns (k0 :: key') line v ->
  Forall (fun l => ~ reassigns (k0 :: key') l) after ->
  last (field_values (k0 :: key') (before ++ line :: after)) d = v.
Proof.
  intros Hk0 Hrev Hkl Ha Hafter.
  change (line :: after) with ([line] ++ after).
  rewrite !field_values_app, (field_values_none Hafter), app_nil_r.
  rewrite (field_values_assigns Hk0 Hrev Hkl Ha).
  apply last_last.
Qed.

Lemma parse_front_matter_first_delimiter (ucd : UnicodeData) (p : path)
    (block body : str) :
  (forall a b : str,
     block ++ py "+++" ++ body = a ++ py "+++" ++ b -> length block <= length a) ->
  parse_front_matter ucd p (File (py "+++" ++ block ++ py "+++" ++ body))
  = Ok (last (field_values (py "title") (split 10%N block))
             (default_title ucd p),
        last (field_values (py "description") (split 10%N block)) []).
Proof.
  intros Hfirst. unfold parse_front_matter, index. cbn [read_text bind].
  rewrite startswith_app.
  change (skipn 3 (py "+++" ++ block ++ py "+++" ++ body))
    with (block ++ py "+++" ++ body).
  rewrite (@find_least (block ++ py "+++" ++ body) (py "+++") block body
             eq_refl Hfirst).
  cbn [bind]. unfold slice.
  change (skipn 3 (py "+++" ++ block ++ py "+++" ++ body))
    with (block ++ py "+++" ++ body).
  replace (3 + length block - 3) with (length block) by lia.
  rewrite firstn_app, firstn_all, Nat.sub_diag.
  cbn [firstn]. rewrite app_nil_r.
  now rewrite fold_front_matter_line.
Qed.

(** C7, as stated, fails for a title that holds three plus signs: they are
    taken for the closing delimiter, the block ends inside the title line
    and neither field is set. *)
Lemma plus_signs_in_title_end_the_block :
  startswith cpp_text (py "+++") = true
  /\ index cpp_text (py "+++") 3 = Ok 14
  /\ parse_front_matter ascii_only [py "cpp.md"] (File cpp_text)
     = Ok (py "Cpp", [])
  /\ parse_front_matter ascii_only [py "cpp.md"] (File cpp_text)
     <> Ok (py "C+++ tips", py "Notes").
Proof. repeat split; try reflexivity. discriminate. Qed.

(** Nor does every quoted text override the title: an apostrophe ends the
    value, and an empty text between the quotes leaves the default. *)
Example quoted_titles_not_taken_whole (ucd : UnicodeData) :
  parse_front_matter ucd [py "news.md"] (File whats_new_text)
  = Ok (py "What", [])
  /\ parse_front_matter ascii_only [py "page.md"] (File empty_title_text)
     = Ok (py "Page", []).
Proof. split; reflexivity. Qed.

(** C7 (amended): take a text made of [+++], a block, [+++] and a body,
    where no [+++] starts before the one that follows the block, and a line
    of the block that assigns [v] to the title: blanks, the key, blanks,
    [=], blanks, a quote character, the non-empty text [v] without quote
    characters, a quote character and anything.  When no later line of the
    block both starts with the key and holds an assignment of it, the title
    returned is [v], whatever the lines before assign; and the same holds
    for the description. *)
Theorem front_matter_assignment_wins (ucd : UnicodeData) (p : path)
    (block body line v : str) (before after : list str) :
  (forall a b : str,
     block ++ py "+++" ++ body = a ++ py "+++" ++ b -> length block <= length a) ->
  block = join [10%N] (before ++ line :: after) ->
  Forall (fun l => ~ In 10%N l) (before ++ line :: after) ->
  (assigns (py "title") line v ->
   Forall (fun l => ~ reassigns (py "title") l) after ->
   exists description : str,
     parse_front_matter ucd p (File (py "+++" ++ block ++ py "+++" ++ body))
     = Ok (v, description))
  /\ (assigns (py "description") line v ->
      Forall (fun l => ~ reassigns (py "description") l) after ->
      exists title : str,
        parse_front_matter ucd p (File (py "+++" ++ block ++ py "+++" ++ body))
        = Ok (title, v)).
Proof.
  intros Hfirst Hblock Hlines.
  rewrite parse_front_matter_first_delimiter by exact Hfirst. rewrite Hblock.
  rewrite split_join; [|now destruct before | exact Hlines].
  split; intros Ha Hafter; eexists; f_equal; f_equal.
  - apply (@last_assignment (py "itle") line v _ 116%N 101%N
             (rev (py "titl")) before after); auto.
  - apply (@last_assignment (py "escription") line v _ 100%N 110%N
             (rev (py "descriptio")) before after); auto.
Qed.

Lemma not_reassigns (key' line : str) (k0 : char) :
  isspace k0 = false ->
  startswith (lstrip line) (k0 :: key') = false ->
  ~ reassigns (k0 :: key') line.
Proof.
  intros Hk Hs [[indent [rest [Hb ->]]] _]. unfold lstrip in Hs.
  rewrite dropwhile_blank in Hs by exact Hb.
  cbn [app dropwhile] in Hs. rewrite Hk in Hs.
  change (k0 :: key' ++ rest) with ((k0 :: key') ++ rest) in Hs.
  rewrite startswith_app in Hs. discriminate.
Qed.

Lemma hello_world_assignments_win :
  ((forall a b : str,
      hello_world_block ++ py "+++" ++ [10%N] ++ py "body" = a ++ py "+++" ++ b ->
      length hello_world_block <= length a)
   /\ hello_world_block
      = join [10%N]
          [[]; py "title = " ++ [34%N] ++ py "Hello" ++ [34%N];
           py "description = " ++ [34%N] ++ py "World" ++ [34%N]; []]
   /\ assigns (py "title")
        (py "title = " ++ [34%N] ++ py "Hello" ++ [34%N]) (py "Hello")
   /\ Forall (fun l => ~ reassigns (py "title") l)
        [py "description = " ++ [34%N] ++ py "World" ++ [34%N]; []]
   /\ assigns (py "description")
        (py "description = " ++ [34%N] ++ py "World" ++ [34%N]) (py "World")
   /\ Forall (fun l => ~ reassigns (py "description") l) [[]])
  /\ parse_front_matter ascii_only [py "docs"; py "my-page_name.md"]
       (File hello_world_text)
     = Ok (py "Hello", py "World").
Proof.
  assert (Hfirst : forall a b : str,
            hello_world_block ++ py "+++" ++ [10%N] ++ py "body"
            = a ++ py "+++" ++ b ->
            length hello_world_block <= length a).
  { exact (proj2 (@find_some_spec
                    (hello_world_block ++ py "+++" ++ [10%N] ++ py "body")
                    (py "+++") (length hello_world_block) eq_refl)). }
  assert (Ht : assigns (py "title")
                 (py "title = " ++ [34%N] ++ py "Hello" ++ [34%N]) (py "Hello")).
  { exists [], (py " "), (py " "), [], 34%N, 34%N.
    repeat split; try reflexivity; try discriminate; repeat constructor. }
  assert (Hd : assigns (py "description")
                 (py "description = " ++ [34%N] ++ py "World" ++ [34%N])
                 (py "World")).
  { exists [], (py " "), (py " "), [], 34%N, 34%N.
    repeat split; try reflexivity; try discriminate; repeat constructor. }
  assert (Hnt : Forall (fun l => ~ reassigns (py "title") l)
                  [py "description = " ++ [34%N] ++ py "World" ++ [34%N]; []]).
  { repeat constructor;
      apply (@not_reassigns (py "itle") _ 116%N); reflexivity. }
  assert (Hnd : Forall (fun l => ~ reassigns (py "description") l) [[]]).
  { repeat constructor.
    apply (@not_reassigns (py "escription") _ 100%N); reflexivity. }
  assert (Hlines : Forall (fun l => ~ In 10%N l)
                     [[]; py "title = " ++ [34%N] ++ py "Hello" ++ [34%N];
                      py "description = " ++ [34%N] ++ py "World" ++ [34%N];
                      []]).
  { repeat constructor; cbn; intuition discriminate. }
  split; [repeat split; assumption|].
  destruct (proj1 (@front_matter_assignment_wins ascii_only
                     [py "docs"; py "my-page_name.md"] hello_world_block
                     ([10%N] ++ py "body")
                     (py "title = " ++ [34%N] ++ py "Hello" ++ [34%N])
                     (py "Hello") [[]]
                     [py "description = " ++ [34%N] ++ py "World" ++ [34%N]; []]
                     Hfirst eq_refl Hlines) Ht Hnt) as [d Hpt].
  destruct (proj2 (@front_matter_assignment_wins ascii_only
                     [py "docs"; py "my-page_name.md"] hello_world_block
                     ([10%N] ++ py "body")
                     (py "description = " ++ [34%N] ++ py "World" ++ [34%N])
                     (py "World")
                     [[]; py "title = " ++ [34%N] ++ py "Hello" ++ [34%N]] [[]]
                     Hfirst eq_refl Hlines) Hd Hnd) as [t Hpd].
  change (py "+++" ++ hello_world_block ++ py "+++" ++ [10%N] ++ py "body")
    with hello_world_text in Hpt, Hpd.
  rewrite Hpt in Hpd. injection Hpd as <- ->. exact Hpt.
Defined.

(** ** Runs over the same files *)



(** A run that cannot write the index raises and leaves the files as they
    were. *)
Example main_stops_when_index_cannot_be_written (ucd : UnicodeData)
    (out : option str) :
  main ucd {| config_toml := Readable []; content := [];
              static_fault := Some PermissionError; site_index_json := out |}
  = (Raise PermissionError,
     {| config_toml := Readable []; content := [];
        static_fault := Some PermissionError; site_index_json := out |}).
Proof. reflexivity. Qed.

(** C6, as stated, fails for a page next to a directory of its name: as
    texts [docs.md] comes before [docs/guide.md], yet the entry of the guide
    is listed first. *)
Lemma docs_page_listed_after_docs_directory :
  str_compare (path_str [py "docs.md"]) (path_str [py "docs"; py "guide.md"])
  = Lt
  /\ build_entries ascii_only (Readable [])
       [([py "docs.md"], File []); ([py "docs"; py "guide.md"], File [])]
     = Ok (static_entries DEFAULT_BASE_URL
             ++ [ {| entry_title := py "Guide";
                     entry_url := DEFAULT_BASE_URL ++ py "/docs/guide/";
                     entry_description := [] |};
                  {| entry_title := py "Docs";
                     entry_url := DEFAULT_BASE_URL ++ py "/docs/";
                     entry_description := [] |} ]).
Proof. split; reflexivity. Qed.

(** ** When a run succeeds *)






(** Samples of a run that stops: a page that is not UTF-8, a page that is
    a link to nothing, and a configuration that cannot be decoded. *)
Example main_stops_on_unreadable_files (ucd : UnicodeData) (out : option str) :
  fst (main ucd {| config_toml := Readable [];
                   content := [([py "latin1.md"], Unreadable UnicodeDecodeError)];
                   static_fault := None; site_index_json := out |})
  = Raise UnicodeDecodeError
  /\ fst (main ucd {| config_toml := Readable [];
                      content := [([py "gone.md"], Unreadable FileNotFoundError)];
                      static_fault := None; site_index_json := out |})
     = Raise FileNotFoundError
  /\ fst (main ucd {| config_toml := Faulty [] UnicodeDecodeError;
                      content := [];
                      static_fault := None; site_index_json := out |})
     = Raise UnicodeDecodeError.
Proof. repeat split. Qed.
